(** * The grpc_health_check extension (extension.go)

    A shallow embedding of [extension.go]: the poll goroutine that turns
    HTTP probe results into a gRPC health status, and the [Start] /
    [Shutdown] lifecycle around the gRPC server and its serve goroutine.

    The goroutines and the caller of [Shutdown] are small-step threads of
    one labelled transition system; the collaborators the file calls
    (the gRPC server, the health server, the HTTP client, the listener)
    appear through the part of their documented behaviour that
    [extension.go] relies on. *)

From Stdlib Require Import ZArith Lia List.
From stdpp Require Import base gmap strings list.

Local Open Scope string_scope.
Local Open Scope list_scope.

(* ===================================================================== *)
(** ** Data *)
(* ===================================================================== *)

(** [healthpb.HealthCheckResponse_ServingStatus], the four values of the
    health protocol's enum. *)
Inductive ServingStatus :=
| HealthCheckResponse_UNKNOWN
| HealthCheckResponse_SERVING
| HealthCheckResponse_NOT_SERVING
| HealthCheckResponse_SERVICE_UNKNOWN.

#[global] Instance ServingStatus_eq_dec : EqDecision ServingStatus.
Proof. solve_decision. Defined.

(** Go error values.  A nil [error] is [None] in [option error].
    [wrapError] is what [fmt.Errorf] builds for a format with [%w]: its
    own message and the error it wraps ([Unwrap]). *)
Inductive error :=
| ErrServerStopped
| errorString (msg : string)
| wrapError (msg : string) (err : error).

#[global] Instance error_eq_dec : EqDecision error.
Proof. solve_decision. Defined.

(** [err.Error()] *)
Definition Error (e : error) : string :=
  match e with
  | ErrServerStopped => "grpc: the server has been stopped"
  | errorString msg => msg
  | wrapError msg _ => msg
  end.

(** [errors.Is(err, target)] for a non-nil [err]: [err] or an error in its
    [Unwrap] chain equals [target]. *)
Fixpoint errors_Is_chain (err target : error) : bool :=
  if decide (err = target) then true
  else match err with
       | wrapError _ inner => errors_Is_chain inner target
       | _ => false
       end.

(** [errors.Is(err, target)] with a non-nil target: false on a nil [err]. *)
Definition errors_Is (err : option error) (target : error) : bool :=
  match err with
  | None => false
  | Some e => errors_Is_chain e target
  end.

(** [fmt.Errorf("failed to bind to address %s: %w", endpoint, err)] *)
Definition Errorf_bind (endpoint : string) (err : error) : error :=
  wrapError ("failed to bind to address " +:+ endpoint +:+ ": " +:+ Error err) err.

(** [time.Duration]: a count of nanoseconds. *)
Definition Duration := Z.
Definition Second : Duration := 1000000000%Z.

(** [http.Client], of which the file sets [Timeout] only. *)
Record Client := { Timeout : Duration }.

(** The package-level [client] (lines 18-22). *)
Definition client : Client := {| Timeout := (5 * Second)%Z |}.

(** [*http.Response], of which the file reads [StatusCode] only. *)
Record Response := { StatusCode : Z }.

(** What [client.Get] returns: an error, or a response. *)
Definition GetResult : Type := error + Response.

(** [Config], whose declaration is not in [extension.go]: the fields
    the file reads, under the names it reads them by
    ([gc.config.Grpc.NetAddr.Endpoint], [gc.config.HealthCheckHttpEndpoint],
    [gc.config.StartPeriod], [gc.config.Interval]). *)
Record AddrConfig := { Endpoint : string }.
Record ServerConfig := { NetAddr : AddrConfig }.
Record Config := {
  Grpc : ServerConfig;
  HealthCheckHttpEndpoint : string;
  StartPeriod : Duration;
  Interval : Duration
}.

(** What the goroutines and the lifecycle calls do to the outside:
    log lines, sleeps, the HTTP request, calls on the collaborators. *)
Inductive Event :=
| EvLogInfo (msg : string)
| EvLogError (msg : string)
| EvSleep (d : Duration)
| EvHttpGet (url : string) (timeout : Duration)
| EvSetServingStatus (service : string) (st : ServingStatus)
| EvServe
| EvReportFatal (err : error)
| EvGracefulStop
| EvRecvStopCh
| EvCloseStopCh.

#[global] Instance Event_eq_dec : EqDecision Event.
Proof. solve_decision. Defined.

(* ===================================================================== *)
(** ** The body of the poll loop (lines 57-66) *)
(* ===================================================================== *)

(** Lines 57-65: [status] starts as SERVING and is overwritten on an error
    and on a status code outside 200..299.  The second component is the
    error log line of the branch taken. *)
Definition probe_status (r : GetResult) : ServingStatus * list Event :=
  let status := HealthCheckResponse_SERVING in
  match r with
  | inl err =>
      (HealthCheckResponse_NOT_SERVING,
       [EvLogError "Failed to get health check status"])
  | inr response =>
      if ((StatusCode response <? 200) || (StatusCode response >=? 300))%Z
      then (HealthCheckResponse_NOT_SERVING,
            [EvLogError "Service seems to be unhealthy"])
      else (status, [])
  end.

(** Line 76: the serve goroutine reports [err] when
    [!errors.Is(err, grpc.ErrServerStopped) && err != nil]. *)
Definition reports_fault (err : option error) : bool :=
  negb (errors_Is err ErrServerStopped) && bool_decide (err <> None).

(* ===================================================================== *)
(** ** The collaborators *)
(* ===================================================================== *)

(** The part of [*grpc.Server] the lifecycle depends on.  [GracefulStop]
    fires [quitFired], closes the listeners, waits until no [Serve] call is
    in its accept loop and no RPC is in flight, and then fires
    [doneFired].  [Serve] on a server whose [quitFired] is set returns
    [ErrServerStopped] at once; a [Serve] that is accepting when
    [quitFired] is set leaves its loop, waits for [doneFired] and returns
    nil; an [Accept] error without [quitFired] makes it return that
    error. *)
Record GrpcServer := {
  quitFired : bool;
  doneFired : bool;
  serving : bool;
  inflight : nat;
  services : list string
}.

(** The server [config.Grpc.ToServer] builds. *)
Definition grpc_NewServer : GrpcServer :=
  {| quitFired := false; doneFired := false; serving := false;
     inflight := 0; services := [] |}.

Definition RegisterService (name : string) (srv : GrpcServer) : GrpcServer :=
  {| quitFired := quitFired srv; doneFired := doneFired srv;
     serving := serving srv; inflight := inflight srv;
     services := services srv ++ [name] |}.

(** [health.NewServer()]: the status table of the health server starts
    with the empty service name set to SERVING. *)
Definition health_NewServer : gmap string ServingStatus :=
  {[ "" := HealthCheckResponse_SERVING ]}.

(** [hs.SetServingStatus(service, status)]: overwrite the entry. *)
Definition SetServingStatus (service : string) (st : ServingStatus)
    (tbl : gmap string ServingStatus) : gmap string ServingStatus :=
  <[service := st]> tbl.

(** The answer of the health server's [Check] for a service name, as the
    interface gives it: the status in the table, SERVICE_UNKNOWN for a
    name that has none. *)
Definition Check (service : string) (tbl : gmap string ServingStatus)
    : ServingStatus :=
  default HealthCheckResponse_SERVICE_UNKNOWN (tbl !! service).

(** [chan struct{}]: nothing is ever sent on [stopCh], so a receive
    returns only once the channel is closed. *)
Record Chan := { closed : bool }.

(* ===================================================================== *)
(** ** The extension and the state of the process *)
(* ===================================================================== *)

(** The struct of lines 24-30; [logger] and [settings] show as events. *)
Record grpcHealthCheckExtension := {
  config : Config;
  server : option GrpcServer;
  stopCh : option Chan
}.

(** Lines 95-101: [server] and [stopCh] start nil. *)
Definition newServer (cfg : Config) : grpcHealthCheckExtension :=
  {| config := cfg; server := None; stopCh := None |}.

(** Where the poll goroutine (lines 53-70) stands.  [PollPublish] holds
    the local [status] between the GET and [SetServingStatus]. *)
Inductive PollPC :=
| PollNotLaunched
| PollWarmup
| PollLoopTop
| PollPublish (status : ServingStatus)
| PollSleep.

(** Where the serve goroutine (lines 72-79) stands.  [ServeReturned]
    holds what [Serve] returned; [ServeDeferred] is the deferred
    [close(gc.stopCh)] still to run. *)
Inductive ServePC :=
| ServeNotLaunched
| ServeLaunched
| ServeAccepting
| ServeDraining
| ServeReturned (err : option error)
| ServeDeferred
| ServeExited.

(** Where the caller of [Shutdown] (lines 84-93) stands. *)
Inductive ShutdownPC :=
| ShutdownNotCalled
| ShutdownInGracefulStop
| ShutdownRecv
| ShutdownReturned (err : option error).

#[global] Instance PollPC_eq_dec : EqDecision PollPC.
Proof. solve_decision. Defined.
#[global] Instance ServePC_eq_dec : EqDecision ServePC.
Proof. solve_decision. Defined.
#[global] Instance ShutdownPC_eq_dec : EqDecision ShutdownPC.
Proof. solve_decision. Defined.

Record Sys := {
  gc : grpcHealthCheckExtension;
  listener : option string;
  hs : option (gmap string ServingStatus);
  poll : PollPC;
  serve : ServePC;
  caller : ShutdownPC;
  trace : list Event
}.

(** A process holding a fresh extension: nothing bound, nothing launched. *)
Definition boot (cfg : Config) : Sys :=
  {| gc := newServer cfg; listener := None; hs := None;
     poll := PollNotLaunched; serve := ServeNotLaunched;
     caller := ShutdownNotCalled; trace := [] |}.

Definition emit (es : list Event) (s : Sys) : Sys :=
  {| gc := gc s; listener := listener s; hs := hs s; poll := poll s;
     serve := serve s; caller := caller s; trace := trace s ++ es |}.

Definition set_server (srv : GrpcServer) (s : Sys) : Sys :=
  {| gc := {| config := config (gc s); server := Some srv;
              stopCh := stopCh (gc s) |};
     listener := listener s; hs := hs s; poll := poll s;
     serve := serve s; caller := caller s; trace := trace s |}.

Definition set_stopCh (c : Chan) (s : Sys) : Sys :=
  {| gc := {| config := config (gc s); server := server (gc s);
              stopCh := Some c |};
     listener := listener s; hs := hs s; poll := poll s;
     serve := serve s; caller := caller s; trace := trace s |}.

Definition set_listener (l : option string) (s : Sys) : Sys :=
  {| gc := gc s; listener := l; hs := hs s; poll := poll s;
     serve := serve s; caller := caller s; trace := trace s |}.

Definition set_hs (t : option (gmap string ServingStatus)) (s : Sys) : Sys :=
  {| gc := gc s; listener := listener s; hs := t; poll := poll s;
     serve := serve s; caller := caller s; trace := trace s |}.

Definition set_poll (pc : PollPC) (s : Sys) : Sys :=
  {| gc := gc s; listener := listener s; hs := hs s; poll := pc;
     serve := serve s; caller := caller s; trace := trace s |}.

Definition set_serve (pc : ServePC) (s : Sys) : Sys :=
  {| gc := gc s; listener := listener s; hs := hs s; poll := poll s;
     serve := pc; caller := caller s; trace := trace s |}.

Definition set_caller (pc : ShutdownPC) (s : Sys) : Sys :=
  {| gc := gc s; listener := listener s; hs := hs s; poll := poll s;
     serve := serve s; caller := pc; trace := trace s |}.

(* ===================================================================== *)
(** ** Start (lines 32-82) *)
(* ===================================================================== *)

(** What the two fallible collaborators answer during [Start]:
    [config.Grpc.ToServer] and [config.Grpc.NetAddr.Listen]; [None] is a
    nil error. *)
Record StartEnv := {
  ToServer_err : option error;
  Listen_err : option error
}.

Definition Start (env : StartEnv) (s : Sys) : Sys * option error :=
  let s := emit [EvLogInfo "Starting grpc_health_check extension"] s in
  match ToServer_err env with
  | Some err => (s, Some err)
  | None =>
      let server := grpc_NewServer in
      let s := set_server server s in
      let endpoint := Endpoint (NetAddr (Grpc (config (gc s)))) in
      match Listen_err env with
      | Some err => (s, Some (Errorf_bind endpoint err))
      | None =>
          let s := set_listener (Some endpoint) s in
          let s := set_stopCh {| closed := false |} s in
          let s := set_hs (Some health_NewServer) s in
          let s := set_server
                     (RegisterService "grpc.reflection.v1.ServerReflection"
                        (RegisterService "grpc.health.v1.Health" server)) s in
          let s := set_poll PollWarmup s in
          let s := set_serve ServeLaunched s in
          (s, None)
      end
  end.

(* ===================================================================== *)
(** ** The goroutines and Shutdown, one step at a time *)
(* ===================================================================== *)

(** One step of the poll goroutine (lines 53-70) on its own: the next
    position and what the step emits.  [r] is what [client.Get] returns,
    read by the step that issues the GET.  No step leaves the loop. *)
Definition poll_goroutine (cfg : Config) (r : GetResult) (pc : PollPC)
    : option (PollPC * list Event) :=
  match pc with
  | PollNotLaunched => None
  | PollWarmup => Some (PollLoopTop, [EvSleep (StartPeriod cfg)])
  | PollLoopTop =>
      let '(status, logs) := probe_status r in
      Some (PollPublish status,
            EvHttpGet (HealthCheckHttpEndpoint cfg) (Timeout client) :: logs)
  | PollPublish status =>
      Some (PollSleep, [EvSetServingStatus "" status])
  | PollSleep => Some (PollLoopTop, [EvSleep (Interval cfg)])
  end.

(** The status publications among some events, in order. *)
Definition publications (es : list Event) : list (string * ServingStatus) :=
  omap (fun e => match e with
                 | EvSetServingStatus service st => Some (service, st)
                 | _ => None
                 end) es.

(** The effect of emitted events on the health server's table: each
    publication is a [SetServingStatus] on it. *)
Definition publish_all (es : list Event) (tbl : gmap string ServingStatus)
    : gmap string ServingStatus :=
  foldl (fun t p => SetServingStatus (fst p) (snd p) t) tbl (publications es).

(** The poll goroutine's step inside the process. *)
Definition poll_step (r : GetResult) (s : Sys) : option Sys :=
  match poll_goroutine (config (gc s)) r (poll s) with
  | None => None
  | Some (pc, es) =>
      Some (emit es (set_poll pc (set_hs (publish_all es <$> hs s) s)))
  end.

Definition with_quit (srv : GrpcServer) : GrpcServer :=
  {| quitFired := true; doneFired := doneFired srv; serving := serving srv;
     inflight := inflight srv; services := services srv |}.

Definition with_done (srv : GrpcServer) : GrpcServer :=
  {| quitFired := quitFired srv; doneFired := true; serving := serving srv;
     inflight := inflight srv; services := services srv |}.

Definition with_serving (b : bool) (srv : GrpcServer) : GrpcServer :=
  {| quitFired := quitFired srv; doneFired := doneFired srv; serving := b;
     inflight := inflight srv; services := services srv |}.

Definition with_inflight (n : nat) (srv : GrpcServer) : GrpcServer :=
  {| quitFired := quitFired srv; doneFired := doneFired srv;
     serving := serving srv; inflight := n; services := services srv |}.

(** One step of the serve goroutine (lines 72-79).  A step that is not
    there ([None]) is a goroutine that is blocked, or has exited. *)
Definition serve_step (s : Sys) : option Sys :=
  match serve s, server (gc s) with
  | ServeLaunched, Some srv =>
      (* gc.server.Serve(ln) is called *)
      if quitFired srv
      then Some (emit [EvServe]
                   (set_serve (ServeReturned (Some ErrServerStopped))
                      (set_listener None s)))
      else Some (emit [EvServe]
                   (set_serve ServeAccepting
                      (set_server (with_serving true srv) s)))
  | ServeAccepting, Some srv =>
      (* the accept loop ends once GracefulStop has closed the listener *)
      if quitFired srv
      then Some (set_serve ServeDraining
                   (set_server (with_serving false srv) s))
      else None
  | ServeDraining, Some srv =>
      (* Serve returns nil once the stop has completed *)
      if doneFired srv then Some (set_serve (ServeReturned None) s) else None
  | ServeReturned err, _ =>
      (* the condition of line 76 *)
      match err with
      | Some e =>
          if reports_fault err
          then Some (emit [EvReportFatal e] (set_serve ServeDeferred s))
          else Some (set_serve ServeDeferred s)
      | None => Some (set_serve ServeDeferred s)
      end
  | ServeDeferred, _ =>
      (* defer close(gc.stopCh); closing a nil channel would panic *)
      match stopCh (gc s) with
      | Some _ =>
          Some (emit [EvCloseStopCh]
                  (set_serve ServeExited (set_stopCh {| closed := true |} s)))
      | None => None
      end
  | _, _ => None
  end.

(** The listener's [Accept] fails with [e] while [Serve] is accepting and
    no stop was asked for: [Serve] closes the listener and returns [e]. *)
Definition accept_error_step (e : error) (s : Sys) : option Sys :=
  match serve s, server (gc s) with
  | ServeAccepting, Some srv =>
      if quitFired srv then None
      else Some (set_serve (ServeReturned (Some e))
                   (set_listener None
                      (set_server (with_serving false srv) s)))
  | _, _ => None
  end.

(** A client's RPC is accepted: only by a server that is accepting and
    was not asked to stop. *)
Definition rpc_arrive_step (s : Sys) : option Sys :=
  match serve s, server (gc s) with
  | ServeAccepting, Some srv =>
      if quitFired srv then None
      else Some (set_server (with_inflight (S (inflight srv)) srv) s)
  | _, _ => None
  end.

(** An RPC in flight gets its response. *)
Definition rpc_done_step (s : Sys) : option Sys :=
  match server (gc s) with
  | Some srv =>
      match inflight srv with
      | S n => Some (set_server (with_inflight n srv) s)
      | O => None
      end
  | None => None
  end.

(** One step of the caller inside [Shutdown] (lines 84-93). *)
Definition shutdown_step (s : Sys) : option Sys :=
  match caller s with
  | ShutdownNotCalled =>
      match server (gc s) with
      | None => Some (set_caller (ShutdownReturned None) s)
      | Some srv =>
          (* gc.server.GracefulStop() is called *)
          Some (emit [EvGracefulStop]
                  (set_caller ShutdownInGracefulStop
                     (set_listener None (set_server (with_quit srv) s))))
      end
  | ShutdownInGracefulStop =>
      match server (gc s) with
      | Some srv =>
          (* GracefulStop returns: no Serve accepting, no RPC in flight *)
          if negb (serving srv) && (inflight srv =? 0)%nat
          then let s := set_server (with_done srv) s in
               match stopCh (gc s) with
               | Some _ => Some (set_caller ShutdownRecv s)
               | None => Some (set_caller (ShutdownReturned None) s)
               end
          else None
      | None => None
      end
  | ShutdownRecv =>
      (* <-gc.stopCh *)
      match stopCh (gc s) with
      | Some c =>
          if closed c
          then Some (emit [EvRecvStopCh]
                       (set_caller (ShutdownReturned None) s))
          else None
      | None => None
      end
  | ShutdownReturned _ => None
  end.

(** Who moves next, and what the environment hands over with the move. *)
Inductive Label :=
| LPoll (r : GetResult)
| LServe
| LAcceptError (e : error)
| LRpcArrive
| LRpcDone
| LShutdown.

Definition step (l : Label) (s : Sys) : option Sys :=
  match l with
  | LPoll r => poll_step r s
  | LServe => serve_step s
  | LAcceptError e => accept_error_step e s
  | LRpcArrive => rpc_arrive_step s
  | LRpcDone => rpc_done_step s
  | LShutdown => shutdown_step s
  end.

(** A schedule, run from [s]; [None] when one of its moves is not
    possible at its turn. *)
Fixpoint run (ls : list Label) (s : Sys) : option Sys :=
  match ls with
  | [] => Some s
  | l :: ls' =>
      match step l s with
      | Some s' => run ls' s'
      | None => None
      end
  end.

(** The process after a [Start] that returned nil. *)
Definition started (cfg : Config) : Sys :=
  fst (Start {| ToServer_err := None; Listen_err := None |} (boot cfg)).

(** [Shutdown] run by a caller on its own, at most [fuel] steps: the
    result it returned, if it did. *)
Fixpoint Shutdown (fuel : nat) (s : Sys) : Sys * option (option error) :=
  match caller s with
  | ShutdownReturned r => (s, Some r)
  | _ =>
      match fuel with
      | O => (s, None)
      | S fuel' =>
          match shutdown_step s with
          | Some s' => Shutdown fuel' s'
          | None => (s, None)
          end
      end
  end.

(** One turn of the [for] loop on its own: the three steps from the top
    of the loop back to it.  Only the first of them reads [r]. *)
Definition poll_iteration (cfg : Config) (r : GetResult)
    : option (PollPC * list Event) :=
  '(pc1, es1) ← poll_goroutine cfg r PollLoopTop;
  '(pc2, es2) ← poll_goroutine cfg r pc1;
  '(pc3, es3) ← poll_goroutine cfg r pc2;
  Some (pc3, es1 ++ es2 ++ es3).

(** The loop taken through one turn per GET result of [rs]. *)
Fixpoint poll_loop (cfg : Config) (rs : list GetResult)
    : option (PollPC * list Event) :=
  match rs with
  | [] => Some (PollLoopTop, [])
  | r :: rs' =>
      '(_, es) ← poll_iteration cfg r;
      '(pc, es') ← poll_loop cfg rs';
      Some (pc, es ++ es')
  end.

(** The HTTP requests among some events, in order: URL and timeout. *)
Definition requests (es : list Event) : list (string * Duration) :=
  omap (fun e => match e with
                 | EvHttpGet url t => Some (url, t)
                 | _ => None
                 end) es.

(** The sleeps among some events, in order. *)
Definition sleeps (es : list Event) : list Duration :=
  omap (fun e => match e with EvSleep d => Some d | _ => None end) es.

(** The fatal errors reported among some events, in order. *)
Definition faults (es : list Event) : list error :=
  omap (fun e => match e with EvReportFatal err => Some err | _ => None end) es.

Definition events_of (o : option (PollPC * list Event)) : list Event :=
  from_option snd [] o.

(* ===================================================================== *)
(** ** The specification's view of the poll configuration *)
(* ===================================================================== *)

(** The specification's PollConfig (its section 3), in the
    specification's words: endpoint, startDelay, interval and
    requestTimeout, held together. *)
Record PollConfig := {
  endpoint : string;
  startDelay : Duration;
  interval : Duration;
  requestTimeout : Duration
}.

(** The requests of one probe as the specification words them: a single
    GET to [endpoint] under [requestTimeout]. *)
Definition spec_probe (pc : PollConfig) : list (string * Duration) :=
  [(endpoint pc, requestTimeout pc)].

(** The [Config] that carries a PollConfig to the extension: the three
    fields the poll goroutine reads from [gc.config].  [extension.go]
    reads no timeout from its configuration, so [requestTimeout] has
    nowhere to go. *)
Definition Config_of (g : ServerConfig) (pc : PollConfig) : Config :=
  {| Grpc := g;
     HealthCheckHttpEndpoint := endpoint pc;
     StartPeriod := startDelay pc;
     Interval := interval pc |}.

(* ===================================================================== *)
(** ** Predicates on states and traces *)
(* ===================================================================== *)

(** The two verdicts of the poll loop. *)
Definition verdict (st : ServingStatus) : Prop :=
  st = HealthCheckResponse_SERVING \/ st = HealthCheckResponse_NOT_SERVING.

(** Every publication among [es] is a verdict for the empty service name. *)
Definition publishes_verdicts (es : list Event) : Prop :=
  Forall (fun p => fst p = "" /\ verdict (snd p)) (publications es).

(** The status table holds one entry, a verdict for the empty name. *)
Definition table_ok (tbl : gmap string ServingStatus) : Prop :=
  dom tbl = {[ "" ]} /\ exists st, tbl !! "" = Some st /\ verdict st.

Definition inv_publish (s : Sys) : Prop :=
  publishes_verdicts (trace s) /\
  (forall st, poll s = PollPublish st -> verdict st) /\
  (forall tbl, hs s = Some tbl -> table_ok tbl).

(** Neither goroutine was launched and no listener is bound. *)
Definition nothing_running (s : Sys) : Prop :=
  poll s = PollNotLaunched /\ serve s = ServeNotLaunched /\
  listener s = None /\ hs s = None /\ stopCh (gc s) = None.

(** The lifecycle invariant of a started extension: [stopCh] is there and
    is closed exactly by an exited serve goroutine; the server counts a
    [Serve] call as accepting only while the goroutine is in it; a caller
    past [GracefulStop] left a server that is stopped, accepts nothing and
    has nothing in flight; a caller that returned saw the channel
    closed. *)
Definition inv_lifecycle (s : Sys) : Prop :=
  exists c srv,
    stopCh (gc s) = Some c /\ server (gc s) = Some srv /\
    (closed c = true -> serve s = ServeExited) /\
    (caller s <> ShutdownNotCalled ->
       quitFired srv = true /\ In EvGracefulStop (trace s)) /\
    (caller s <> ShutdownNotCalled ->
     caller s <> ShutdownInGracefulStop ->
       inflight srv = 0 /\ serving srv = false) /\
    (forall r, caller s = ShutdownReturned r -> r = None /\ closed c = true) /\
    serve s <> ServeNotLaunched /\
    (serving srv = true -> serve s = ServeAccepting) /\
    (serve s = ServeExited -> closed c = true) /\
    (caller s <> ShutdownNotCalled ->
     caller s <> ShutdownInGracefulStop -> doneFired srv = true).

(** How many moves the serve goroutine and the caller of [Shutdown] are
    away from their ends, once a stop was asked for. *)
Definition serve_rank (pc : ServePC) : nat :=
  match pc with
  | ServeNotLaunched => 0
  | ServeLaunched => 3
  | ServeAccepting => 4
  | ServeDraining => 3
  | ServeReturned _ => 2
  | ServeDeferred => 1
  | ServeExited => 0
  end.

Definition caller_rank (pc : ShutdownPC) : nat :=
  match pc with
  | ShutdownNotCalled => 3
  | ShutdownInGracefulStop => 2
  | ShutdownRecv => 1
  | ShutdownReturned _ => 0
  end.

Definition remaining (s : Sys) : nat :=
  caller_rank (caller s) + serve_rank (serve s)
  + from_option inflight 0 (server (gc s)).

(** A move that brings [Shutdown] closer to its return: call
    [Shutdown]; let the RPCs in flight finish; let [Serve] leave its
    accept loop; let [GracefulStop] return; let the serve goroutine run to
    its end; receive from the closed channel. *)
Definition next_move (s : Sys) : Label :=
  match caller s with
  | ShutdownNotCalled => LShutdown
  | ShutdownInGracefulStop =>
      match from_option inflight 0 (server (gc s)) with
      | S _ => LRpcDone
      | O => match serve s with
             | ServeAccepting => LServe
             | _ => LShutdown
             end
      end
  | ShutdownRecv =>
      match serve s with
      | ServeExited => LShutdown
      | _ => LServe
      end
  | ShutdownReturned _ => LShutdown
  end.

(** The moves of [next_move] from [s], at most [fuel] of them, up to the
    return of [Shutdown]. *)
Fixpoint finish (fuel : nat) (s : Sys) : list Label :=
  match fuel with
  | O => []
  | S fuel' =>
      match caller s with
      | ShutdownReturned _ => []
      | _ => match step (next_move s) s with
             | Some s' => next_move s :: finish fuel' s'
             | None => []
             end
      end
  end.

(** The events only the poll goroutine emits. *)
Definition is_poll_event (e : Event) : bool :=
  match e with
  | EvSleep _ | EvHttpGet _ _ | EvLogError _ | EvSetServingStatus _ _ => true
  | _ => false
  end.

Definition poll_events (es : list Event) : list Event :=
  List.filter is_poll_event es.

(** The events of one complete turn of the loop per GET result. *)
Definition turns (cfg : Config) (rs : list GetResult) : list Event :=
  concat (map (fun r => events_of (poll_iteration cfg r)) rs).

(** What the poll goroutine has emitted when it stands at [pc] after the
    complete turns for [rs]: nothing during the warm-up, then the warm-up
    sleep, the complete turns, and the part of the current turn already
    done. *)
Definition poll_trace_at (cfg : Config) (rs : list GetResult) (pc : PollPC)
    (es : list Event) : Prop :=
  match pc with
  | PollNotLaunched => False
  | PollWarmup => rs = [] /\ es = []
  | PollLoopTop => es = EvSleep (StartPeriod cfg) :: turns cfg rs
  | PollPublish status =>
      exists r, status = fst (probe_status r) /\
        es = EvSleep (StartPeriod cfg) :: turns cfg rs
             ++ EvHttpGet (HealthCheckHttpEndpoint cfg) (Timeout client)
                :: snd (probe_status r)
  | PollSleep =>
      exists r,
        es = EvSleep (StartPeriod cfg) :: turns cfg rs
             ++ EvHttpGet (HealthCheckHttpEndpoint cfg) (Timeout client)
                :: snd (probe_status r)
             ++ [EvSetServingStatus "" (fst (probe_status r))]
  end.

(** The invariant of the launched poll goroutine: the configuration is
    [cfg], the health table is what the publications so far made of the
    table of [health.NewServer], and the goroutine's events are those of
    the loop at its position. *)
Definition inv_poll (cfg : Config) (s : Sys) : Prop :=
  config (gc s) = cfg /\
  hs s = Some (publish_all (trace s) health_NewServer) /\
  exists rs, poll_trace_at cfg rs (poll s) (poll_events (trace s)).



Definition is_poll_move (l : Label) : Prop :=
  match l with LPoll _ => True | _ => False end.

(** The errors the listener's [Accept] can fail with.  The listener is
    the one [Start] opens at line 41, a listener of the [net] package:
    its errors come from the network and the system, so
    [grpc.ErrServerStopped] is none of them and is in the [Unwrap] chain
    of none of them. *)
Definition listener_error (e : error) : Prop :=
  errors_Is_chain e ErrServerStopped = false.




(** A configuration and schedules to run the definitions on. *)
Definition example_config : Config :=
  {| Grpc := {| NetAddr := {| Endpoint := "localhost:13133" |} |};
     HealthCheckHttpEndpoint := "http://localhost:8080/health";
     StartPeriod := (10 * Second)%Z;
     Interval := (2 * Second)%Z |}.

Definition example_poll_config : PollConfig :=
  {| endpoint := "http://localhost:8080/health";
     startDelay := (10 * Second)%Z;
     interval := (2 * Second)%Z;
     requestTimeout := (1 * Second)%Z |}.

(** [Shutdown] right after [Start]: the serve goroutine finds the server
    stopped. *)
Definition example_early_shutdown : list Label :=
  [LShutdown; LShutdown; LServe; LServe; LServe; LShutdown].

(** [Shutdown] while one RPC is in flight and a probe has failed. *)
Definition example_busy_shutdown : list Label :=
  [LServe; LRpcArrive; LPoll (inl (errorString "connection refused"));
   LPoll (inl (errorString "connection refused")); LPoll (inr {| StatusCode := 503 |});
   LShutdown; LServe; LRpcDone; LShutdown; LServe; LServe; LServe; LShutdown].

(** A probe has failed but its verdict is not published yet. *)
Definition example_first_probe : list Label :=
  [LServe; LPoll (inl (errorString "connection refused"));
   LPoll (inl (errorString "connection refused"))].

(** The state a schedule leads to from a started extension ([boot] when
    the schedule cannot be run). *)
Definition state_after (cfg : Config) (ls : list Label) : Sys :=
  default (boot cfg) (run ls (started cfg)).

(* ===================================================================== *)
(** ** Further observations on runs *)
(* ===================================================================== *)

(** The GET results handed to the poll goroutine along a schedule: those
    of the moves it makes at the top of its loop, starting at [pc]. *)
Fixpoint probed (cfg : Config) (pc : PollPC) (ls : list Label)
    : list GetResult :=
  match ls with
  | [] => []
  | LPoll r :: ls' =>
      match poll_goroutine cfg r pc with
      | Some (pc', _) =>
          match pc with
          | PollLoopTop => r :: probed cfg pc' ls'
          | _ => probed cfg pc' ls'
          end
      | None => []
      end
  | _ :: ls' => probed cfg pc ls'
  end.

(** The status the goroutine holds in [status] and has not published yet. *)
Definition pending (pc : PollPC) : list ServingStatus :=
  match pc with
  | PollPublish st => [st]
  | _ => []
  end.

(** The error log lines among some events, in order. *)
Definition error_logs (es : list Event) : list string :=
  omap (fun e => match e with EvLogError msg => Some msg | _ => None end) es.

(** How many of some statuses are NOT_SERVING. *)
Definition not_serving (sts : list ServingStatus) : nat :=
  count_occ ServingStatus_eq_dec sts HealthCheckResponse_NOT_SERVING.

(** What a reader of the trace has seen of the stop protocol so far, and
    whether all of it came in order: [close(gc.stopCh)] at most once, a
    fault reported only before that close, the receive of [Shutdown] only
    after the call of [GracefulStop] and after the close. *)
Record Watch := {
  sawStop : bool;
  sawClose : bool;
  in_order : bool
}.

Definition watch (w : Watch) (e : Event) : Watch :=
  match e with
  | EvGracefulStop =>
      {| sawStop := true; sawClose := sawClose w; in_order := in_order w |}
  | EvCloseStopCh =>
      {| sawStop := sawStop w; sawClose := true;
         in_order := in_order w && negb (sawClose w) |}
  | EvReportFatal _ =>
      {| sawStop := sawStop w; sawClose := sawClose w;
         in_order := in_order w && negb (sawClose w) |}
  | EvRecvStopCh =>
      {| sawStop := sawStop w; sawClose := sawClose w;
         in_order := in_order w && sawStop w && sawClose w |}
  | _ => w
  end.

Definition watch_all (es : list Event) : Watch :=
  foldl watch {| sawStop := false; sawClose := false; in_order := true |} es.

(** The caller enters [Shutdown] (once more, if it had returned). *)
Definition call_Shutdown (s : Sys) : Sys := set_caller ShutdownNotCalled s.

(** The serve goroutine has not reached the test of line 76 yet. *)
Definition before_report (pc : ServePC) : Prop :=
  match pc with
  | ServeDeferred | ServeExited => False
  | _ => True
  end.

(** What is known of the faults after the schedule [ls]: none before the
    test of line 76, at most one after it, and that one an error the
    listener failed with and that line 76 lets through. *)
Definition inv_faults (ls : list Label) (s : Sys) : Prop :=
  (before_report (serve s) -> faults (trace s) = []) /\
  length (faults (trace s)) <= 1 /\
  (forall e, In e (faults (trace s)) ->
     In (LAcceptError e) ls /\ reports_fault (Some e) = true) /\
  (forall e, serve s = ServeReturned (Some e) ->
     reports_fault (Some e) = true -> In (LAcceptError e) ls).

(** The reader of the trace agrees with the positions of the threads. *)
Definition inv_watch (s : Sys) : Prop :=
  in_order (watch_all (trace s)) = true /\
  sawClose (watch_all (trace s)) = bool_decide (serve s = ServeExited) /\
  sawStop (watch_all (trace s))
  = negb (bool_decide (caller s = ShutdownNotCalled)).

(** A schedule on which a listener fails with an error that wraps
    nothing. *)
Definition example_listener_failure : list Label :=
  [LServe; LPoll (inr {| StatusCode := 200 |});
   LAcceptError (errorString "accept tcp: use of closed network connection");
   LServe; LPoll (inr {| StatusCode := 200 |}); LServe].

(** A schedule with three probes: healthy, unhealthy, unreachable. *)
Definition example_three_probes : list Label :=
  [LPoll (inl ErrServerStopped);
   LPoll (inr {| StatusCode := 200 |}); LServe;
   LPoll (inl ErrServerStopped); LPoll (inl ErrServerStopped);
   LPoll (inr {| StatusCode := 503 |}); LRpcArrive;
   LPoll (inl ErrServerStopped); LPoll (inl ErrServerStopped);
   LPoll (inl (errorString "connection refused"))].

(** Proof steps for the case analyses over the moves of the process. *)
Ltac use_invariant :=
  repeat match goal with
         | H : forall r0, ShutdownReturned ?r = ShutdownReturned r0 -> _ |- _ =>
             destruct (H _ eq_refl) as [? ?]; clear H
         | H : ?a <> ?b -> _ |- _ =>
             let X := fresh in
             assert (X : a <> b) by discriminate; specialize (H X); clear X
         | H : ?a = ?a -> _ |- _ => specialize (H eq_refl)
         | H : _ /\ _ |- _ => destruct H
         end.

Ltac lifecycle_case :=
  repeat case_match; simplify_eq; simpl in *;
  eexists _, _; (split; [reflexivity|]); (split; [reflexivity|]); simpl;
  repeat match goal with
         | |- _ /\ _ => split
         | |- _ -> _ => intro
         | |- forall _, _ => intro
         end;
  simplify_eq; use_invariant; simplify_eq;
  try match goal with
      | H : negb _ && (_ =? _)%nat = true |- _ =>
          apply andb_true_iff in H; destruct H as [Hsv Hn]; cbn in Hsv, Hn;
          apply negb_true_iff in Hsv; apply Nat.eqb_eq in Hn
      end;
  try congruence;
  try (rewrite in_app_iff; simpl);
  try solve [ intuition (simplify_eq; simpl in *; auto; congruence) ].

(* ===================================================================== *)
(** ** Basic facts *)
(* ===================================================================== *)

Lemma publications_app (es es' : list Event) :
  publications (es ++ es') = publications es ++ publications es'.
Proof. apply omap_app. Qed.

Lemma requests_app (es es' : list Event) :
  requests (es ++ es') = requests es ++ requests es'.
Proof. apply omap_app. Qed.

Lemma sleeps_app (es es' : list Event) :
  sleeps (es ++ es') = sleeps es ++ sleeps es'.
Proof. apply omap_app. Qed.

Lemma faults_app (es es' : list Event) :
  faults (es ++ es') = faults es ++ faults es'.
Proof. apply omap_app. Qed.

(** An invariant of the moves allowed by [Q] holds along every schedule
    made of such moves. *)
Lemma run_invariant_on (Q : Label -> Prop) (P : Sys -> Prop) :
  (forall l s s', Q l -> P s -> step l s = Some s' -> P s') ->
  forall ls s s', Forall Q ls -> P s -> run ls s = Some s' -> P s'.
Proof.
  intros Hstep ls. induction ls as [|l ls IH]; intros s s' HQ HP Hrun.
  - simpl in Hrun. congruence.
  - simpl in Hrun. inversion HQ as [|? ? Hl Hls]; subst.
    destruct (step l s) as [s1|] eqn:E; [|discriminate].
    apply (IH s1 s'); [assumption| |assumption].
    apply (Hstep l s s1); assumption.
Qed.

Lemma run_invariant (P : Sys -> Prop) :
  (forall l s s', P s -> step l s = Some s' -> P s') ->
  forall ls s s', P s -> run ls s = Some s' -> P s'.
Proof.
  intros Hstep ls s s' HP Hrun.
  apply (run_invariant_on (fun _ => True) P (fun l a b _ => Hstep l a b) ls s s');
    [|assumption|assumption].
  clear Hrun. induction ls; constructor; auto.
Qed.

Lemma run_app (ls1 ls2 : list Label) (s : Sys) :
  run (ls1 ++ ls2) s = match run ls1 s with
                       | Some s1 => run ls2 s1
                       | None => None
                       end.
Proof.
  revert s. induction ls1 as [|l ls1 IH]; intros s; simpl; [reflexivity|].
  destruct (step l s); auto.
Qed.

(** [errors.Is] finds an error in itself and under a wrapper. *)
Lemma errors_Is_chain_refl (e : error) : errors_Is_chain e e = true.
Proof. destruct e; cbn [errors_Is_chain]; rewrite decide_True; reflexivity. Qed.

Lemma errors_Is_chain_wrap (msg : string) (e target : error) :
  errors_Is_chain e target = true ->
  errors_Is_chain (wrapError msg e) target = true.
Proof.
  intros H. cbn [errors_Is_chain].
  destruct (decide (wrapError msg e = target)); [reflexivity|assumption].
Qed.

Lemma reports_fault_spec (err : option error) :
  reports_fault err = true <->
  err <> None /\ errors_Is err ErrServerStopped = false.
Proof.
  unfold reports_fault. rewrite andb_true_iff, negb_true_iff, bool_decide_eq_true.
  tauto.
Qed.

(** The status computed by lines 57-65, case by case. *)
Lemma probe_status_error (err : error) :
  fst (probe_status (inl err)) = HealthCheckResponse_NOT_SERVING.
Proof. reflexivity. Qed.

Lemma probe_status_response (resp : Response) :
  fst (probe_status (inr resp)) =
  if decide (200 <= StatusCode resp < 300)%Z
  then HealthCheckResponse_SERVING
  else HealthCheckResponse_NOT_SERVING.
Proof.
  unfold probe_status.
  destruct (StatusCode resp <? 200)%Z eqn:E1;
    destruct (StatusCode resp >=? 300)%Z eqn:E2; simpl;
    case_decide; try reflexivity; lia.
Qed.

Lemma probe_status_verdict (r : GetResult) : verdict (fst (probe_status r)).
Proof.
  destruct r as [err|resp].
  - right. reflexivity.
  - rewrite probe_status_response. case_decide; [left|right]; reflexivity.
Qed.

(** A turn of the loop always goes through, and this is what it emits. *)
Lemma poll_iteration_events (cfg : Config) (r : GetResult) :
  poll_iteration cfg r =
  Some (PollLoopTop,
        EvHttpGet (HealthCheckHttpEndpoint cfg) (Timeout client)
          :: snd (probe_status r)
          ++ [EvSetServingStatus "" (fst (probe_status r));
              EvSleep (Interval cfg)]).
Proof.
  unfold poll_iteration. simpl.
  destruct (probe_status r) as [status logs]. simpl.
  reflexivity.
Qed.

Lemma probe_status_logs (r : GetResult) :
  publications (snd (probe_status r)) = [] /\
  requests (snd (probe_status r)) = [] /\
  sleeps (snd (probe_status r)) = [].
Proof.
  destruct r as [err|resp]; simpl; [auto|].
  destruct ((StatusCode resp <? 200)%Z || (StatusCode resp >=? 300)%Z); auto.
Qed.

Lemma poll_loop_events (cfg : Config) (rs : list GetResult) :
  poll_loop cfg rs =
  Some (PollLoopTop, concat (map (fun r => events_of (poll_iteration cfg r)) rs)).
Proof.
  induction rs as [|r rs IH]; simpl; [reflexivity|].
  rewrite IH. rewrite poll_iteration_events. simpl. reflexivity.
Qed.

(* ===================================================================== *)
(** ** The poll loop's verdict *)
(* ===================================================================== *)

(** The two steps that probe and publish, inside the process: the table
    ends with the status of lines 57-65 under the empty name. *)
Lemma poll_probe_publish (s : Sys) (tbl : gmap string ServingStatus)
    (r r' : GetResult) :
  poll s = PollLoopTop -> hs s = Some tbl ->
  exists s', run [LPoll r; LPoll r'] s = Some s' /\
             poll s' = PollSleep /\
             hs s' = Some (<["" := fst (probe_status r)]> tbl).
Proof.
  intros Hpc Hhs. simpl. unfold poll_step. rewrite Hpc. simpl.
  pose proof (probe_status_logs r) as (Hlogs & _ & _).
  destruct (probe_status r) as [status logs] eqn:E. simpl in *.
  eexists. split; [reflexivity|]. simpl. split; [reflexivity|].
  rewrite Hhs. simpl. unfold publish_all. simpl. rewrite Hlogs. reflexivity.
Qed.

(** C1: in every turn of the poll loop, a GET that ends in a transport
    error or a timeout, or whose response carries a status code outside
    [200,300), makes the turn publish NOT_SERVING; a response with a status
    code in [200,300) makes it publish SERVING.  The publication is the
    only one of the turn, and it is what [Check] answers afterwards. *)
Theorem C1_verdict_of_probe (cfg : Config) (r : GetResult) :
  ((exists err, r = inl err) \/
   (exists resp, r = inr resp /\ ~ (200 <= StatusCode resp < 300)%Z) ->
   publications (events_of (poll_iteration cfg r))
     = [("", HealthCheckResponse_NOT_SERVING)] /\
   forall s tbl r', poll s = PollLoopTop -> hs s = Some tbl ->
     exists s' tbl', run [LPoll r; LPoll r'] s = Some s' /\ hs s' = Some tbl' /\
                Check "" tbl' = HealthCheckResponse_NOT_SERVING) /\
  ((exists resp, r = inr resp /\ (200 <= StatusCode resp < 300)%Z) ->
   publications (events_of (poll_iteration cfg r))
     = [("", HealthCheckResponse_SERVING)] /\
   forall s tbl r', poll s = PollLoopTop -> hs s = Some tbl ->
     exists s' tbl', run [LPoll r; LPoll r'] s = Some s' /\ hs s' = Some tbl' /\
                Check "" tbl' = HealthCheckResponse_SERVING).
Proof.
  assert (Hpub : publications (events_of (poll_iteration cfg r))
                 = [("", fst (probe_status r))]).
  { rewrite poll_iteration_events. simpl.
    rewrite publications_app.
    destruct (probe_status_logs r) as (-> & _ & _). reflexivity. }
  assert (Htbl : forall s tbl r', poll s = PollLoopTop -> hs s = Some tbl ->
            exists s' tbl', run [LPoll r; LPoll r'] s = Some s' /\
              hs s' = Some tbl' /\ Check "" tbl' = fst (probe_status r)).
  { intros s tbl r' Hpc Hhs.
    destruct (poll_probe_publish s tbl r r' Hpc Hhs) as (s' & Hrun & _ & Hhs').
    exists s', (<["" := fst (probe_status r)]> tbl).
    repeat split; try assumption.
    unfold Check. rewrite lookup_insert_eq. reflexivity. }
  split.
  - intros [[err ->] | (resp & -> & Hcode)].
    + split; [exact Hpub | exact Htbl].
    + rewrite probe_status_response in Hpub, Htbl.
      rewrite decide_False in Hpub, Htbl by assumption.
      split; [exact Hpub | exact Htbl].
  - intros (resp & -> & Hcode).
    rewrite probe_status_response in Hpub, Htbl.
    rewrite decide_True in Hpub, Htbl by assumption.
    split; [exact Hpub | exact Htbl].
Qed.

Lemma C1_verdict_of_probe_witness :
  publications (events_of (poll_iteration example_config
                             (inr {| StatusCode := 503 |})))
    = [("", HealthCheckResponse_NOT_SERVING)] /\
  publications (events_of (poll_iteration example_config
                             (inl (errorString "connection refused"))))
    = [("", HealthCheckResponse_NOT_SERVING)] /\
  publications (events_of (poll_iteration example_config
                             (inr {| StatusCode := 204 |})))
    = [("", HealthCheckResponse_SERVING)].
Proof.
  split; [|split].
  - apply (C1_verdict_of_probe example_config (inr {| StatusCode := 503 |})).
    right. eexists. split; [reflexivity|]. simpl. lia.
  - apply (C1_verdict_of_probe example_config
             (inl (errorString "connection refused"))).
    left. eexists. reflexivity.
  - apply (C1_verdict_of_probe example_config (inr {| StatusCode := 204 |})).
    eexists. split; [reflexivity|]. simpl. lia.
Defined.

(* ===================================================================== *)
(** ** A Start that fails *)
(* ===================================================================== *)

(** With no goroutine launched, whatever moves is the caller of
    [Shutdown] (or nothing at all), and it launches none. *)
Lemma nothing_running_step (l : Label) (s s' : Sys) :
  nothing_running s -> step l s = Some s' -> nothing_running s'.
Proof.
  intros (Hp & Hs & Hl & Hh & Hc) Hstep. unfold nothing_running.
  destruct l; simpl in Hstep.
  - unfold poll_step in Hstep. rewrite Hp in Hstep. discriminate.
  - unfold serve_step in Hstep. rewrite Hs in Hstep. discriminate.
  - unfold accept_error_step in Hstep. rewrite Hs in Hstep. discriminate.
  - unfold rpc_arrive_step in Hstep. rewrite Hs in Hstep. discriminate.
  - unfold rpc_done_step in Hstep.
    repeat case_match; simplify_eq; simpl; auto.
  - unfold shutdown_step in Hstep. rewrite Hc in Hstep.
    repeat case_match; simplify_eq; simpl; rewrite ?Hc; auto.
Qed.

Lemma nothing_running_stuck (s : Sys) :
  nothing_running s -> (forall r, poll_step r s = None) /\ serve_step s = None.
Proof.
  intros (Hp & Hs & _). split.
  - intros r. unfold poll_step. rewrite Hp. reflexivity.
  - unfold serve_step. rewrite Hs. reflexivity.
Qed.

(** C2: when [Start] fails, because the server cannot be built or because
    the listener cannot be bound, it returns the failure as its own
    result (the construction error itself; the bind error under one
    layer of context that [errors.Is] sees through), it has launched
    neither the poll goroutine nor the serve goroutine, no listener is
    live, and whatever happens later no goroutine ever runs. *)
Theorem C2_failed_Start (cfg : Config) (env : StartEnv) (cause : error) :
  ToServer_err env = Some cause \/
  (ToServer_err env = None /\ Listen_err env = Some cause) ->
  (exists e, snd (Start env (boot cfg)) = Some e /\
             errors_Is (Some e) cause = true /\
             (ToServer_err env = Some cause -> e = cause) /\
             (ToServer_err env = None ->
                e = wrapError (Error e) cause)) /\
  nothing_running (fst (Start env (boot cfg))) /\
  (forall r, poll_step r (fst (Start env (boot cfg))) = None) /\
  serve_step (fst (Start env (boot cfg))) = None /\
  (forall ls s', run ls (fst (Start env (boot cfg))) = Some s' ->
     poll s' = PollNotLaunched /\ serve s' = ServeNotLaunched /\
     listener s' = None).
Proof.
  intros Hfail.
  assert (Hquiet : nothing_running (fst (Start env (boot cfg)))).
  { unfold Start. destruct Hfail as [-> | [-> ->]]; simpl; repeat split. }
  split; [|split; [exact Hquiet|]].
  - unfold Start. destruct Hfail as [HT | [HT HL]]; rewrite HT; [|rewrite HL]; simpl.
    + exists cause. repeat split.
      * apply errors_Is_chain_refl.
      * intros; congruence.
    + eexists. split; [reflexivity|]. split; [|split].
      * apply errors_Is_chain_wrap, errors_Is_chain_refl.
      * intros; discriminate.
      * intros _. reflexivity.
  - destruct (nothing_running_stuck _ Hquiet) as [Hp Hs].
    split; [exact Hp|]. split; [exact Hs|].
    intros ls s' Hrun.
    assert (H : nothing_running s').
    { eapply run_invariant; [|exact Hquiet|exact Hrun].
      intros l a b Ha Hab. eapply nothing_running_step; eauto. }
    destruct H as (? & ? & ? & _). auto.
Qed.

Lemma C2_failed_Start_witness :
  snd (Start {| ToServer_err := None;
                Listen_err := Some (errorString "address already in use") |}
         (boot example_config))
    = Some (wrapError
              "failed to bind to address localhost:13133: address already in use"
              (errorString "address already in use")) /\
  nothing_running
    (fst (Start {| ToServer_err := None;
                   Listen_err := Some (errorString "address already in use") |}
            (boot example_config))).
Proof.
  pose proof (C2_failed_Start example_config
                {| ToServer_err := None;
                   Listen_err := Some (errorString "address already in use") |}
                (errorString "address already in use")) as H.
  destruct H as [_ [Hquiet _]].
  - right. split; reflexivity.
  - split; [reflexivity | exact Hquiet].
Defined.

(* ===================================================================== *)
(** ** Shutdown without a running server *)
(* ===================================================================== *)

(** C6: [Shutdown] on an extension on which [Start] was never called
    returns nil at its first step, and nothing but the caller's own
    position differs afterwards: the extension's fields, the listener,
    the health table, the goroutines and the trace are as they were. *)
Theorem C6_Shutdown_unstarted (cfg : Config) (fuel : nat) :
  Shutdown (S fuel) (boot cfg)
    = (set_caller (ShutdownReturned None) (boot cfg), Some None) /\
  gc (fst (Shutdown (S fuel) (boot cfg))) = newServer cfg /\
  trace (fst (Shutdown (S fuel) (boot cfg))) = [] /\
  nothing_running (fst (Shutdown (S fuel) (boot cfg))).
Proof.
  assert (H : Shutdown (S fuel) (boot cfg)
              = (set_caller (ShutdownReturned None) (boot cfg), Some None)).
  { destruct fuel; reflexivity. }
  rewrite H. repeat split.
Qed.

(** C10: after a [Start] that built the server and then failed to bind,
    [Shutdown] returns nil within two steps of its own, waiting for no
    other thread: [gc.server] is not nil, so [GracefulStop] is called, on
    a server that never served and lets it return at once, and
    [gc.stopCh] is nil, so the receive is skipped. *)
Theorem C10_Shutdown_after_failed_bind (cfg : Config) (e : error) (fuel : nat) :
  let env := {| ToServer_err := None; Listen_err := Some e |} in
  let s := fst (Start env (boot cfg)) in
  let s' := fst (Shutdown (2 + fuel) s) in
  snd (Start env (boot cfg))
    = Some (Errorf_bind (Endpoint (NetAddr (Grpc cfg))) e) /\
  server (gc s) = Some grpc_NewServer /\
  stopCh (gc s) = None /\
  snd (Shutdown (2 + fuel) s) = Some None /\
  trace s' = trace s ++ [EvGracefulStop] /\
  ~ In EvRecvStopCh (trace s') /\
  stopCh (gc s') = None /\
  nothing_running s'.
Proof.
  intros env s s'. subst env s s'.
  assert (H : forall n, Shutdown (2 + n)
                (fst (Start {| ToServer_err := None; Listen_err := Some e |}
                        (boot cfg)))
              = Shutdown 0 (fst (Shutdown 2
                  (fst (Start {| ToServer_err := None; Listen_err := Some e |}
                          (boot cfg)))))).
  { intros n. destruct n; reflexivity. }
  rewrite H. simpl. repeat split.
  intros [Hin | [Hin | []]]; discriminate.
Qed.

(* ===================================================================== *)
(** ** The poll goroutine inside the process *)
(* ===================================================================== *)

Lemma poll_goroutine_cases (cfg : Config) (r : GetResult) (pc pc' : PollPC)
    (es : list Event) :
  poll_goroutine cfg r pc = Some (pc', es) ->
  (pc = PollWarmup /\ pc' = PollLoopTop /\ es = [EvSleep (StartPeriod cfg)]) \/
  (pc = PollLoopTop /\ pc' = PollPublish (fst (probe_status r)) /\
   es = EvHttpGet (HealthCheckHttpEndpoint cfg) (Timeout client)
        :: snd (probe_status r)) \/
  (exists st, pc = PollPublish st /\ pc' = PollSleep /\
              es = [EvSetServingStatus "" st]) \/
  (pc = PollSleep /\ pc' = PollLoopTop /\ es = [EvSleep (Interval cfg)]).
Proof.
  destruct pc; simpl; intros H.
  - discriminate.
  - inversion H; subst. left. auto.
  - destruct (probe_status r) as [st logs]. inversion H; subst.
    right; left. auto.
  - inversion H; subst. right; right; left. eauto.
  - inversion H; subst. right; right; right. auto.
Qed.

Lemma poll_step_inv (r : GetResult) (s s' : Sys) :
  poll_step r s = Some s' ->
  exists pc es,
    poll_goroutine (config (gc s)) r (poll s) = Some (pc, es) /\
    gc s' = gc s /\ listener s' = listener s /\ serve s' = serve s /\
    caller s' = caller s /\ poll s' = pc /\
    hs s' = publish_all es <$> hs s /\ trace s' = trace s ++ es.
Proof.
  unfold poll_step. intros H.
  destruct (poll_goroutine (config (gc s)) r (poll s)) as [[pc es]|];
    [|discriminate].
  inversion H; subst. exists pc, es. simpl. repeat split.
Qed.

Lemma poll_events_app (es es' : list Event) :
  poll_events (es ++ es') = poll_events es ++ poll_events es'.
Proof. apply List.filter_app. Qed.

(** A move of another thread leaves the poll goroutine, the health table
    and the configuration alone, and adds none of its events. *)
Lemma step_frame_poll (l : Label) (s s' : Sys) :
  ~ is_poll_move l -> step l s = Some s' ->
  poll s' = poll s /\ hs s' = hs s /\ config (gc s') = config (gc s) /\
  poll_events (trace s') = poll_events (trace s) /\
  publications (trace s') = publications (trace s).
Proof.
  intros Hl Hstep. destruct l; simpl in Hl, Hstep; [tauto| | | | |].
  - unfold serve_step in Hstep.
    repeat case_match; simplify_eq; simpl;
      rewrite ?poll_events_app, ?publications_app; simpl;
      rewrite ?app_nil_r; auto.
  - unfold accept_error_step in Hstep.
    repeat case_match; simplify_eq; simpl; auto.
  - unfold rpc_arrive_step in Hstep.
    repeat case_match; simplify_eq; simpl; auto.
  - unfold rpc_done_step in Hstep.
    repeat case_match; simplify_eq; simpl; auto.
  - unfold shutdown_step in Hstep.
    repeat case_match; simplify_eq; simpl;
      rewrite ?poll_events_app, ?publications_app; simpl;
      rewrite ?app_nil_r; auto.
Qed.

Lemma publish_all_app (es es' : list Event) (tbl : gmap string ServingStatus) :
  publish_all (es ++ es') tbl = publish_all es' (publish_all es tbl).
Proof. unfold publish_all. rewrite publications_app, foldl_app. reflexivity. Qed.

Lemma publish_all_nil (es : list Event) (tbl : gmap string ServingStatus) :
  publications es = [] -> publish_all es tbl = tbl.
Proof. unfold publish_all. intros ->. reflexivity. Qed.

Lemma poll_events_logs (r : GetResult) :
  poll_events (snd (probe_status r)) = snd (probe_status r).
Proof.
  destruct r as [err|resp]; simpl; [reflexivity|].
  destruct ((StatusCode resp <? 200)%Z || (StatusCode resp >=? 300)%Z);
    reflexivity.
Qed.

Lemma turns_snoc (cfg : Config) (rs : list GetResult) (r : GetResult) :
  turns cfg (rs ++ [r]) = turns cfg rs ++ events_of (poll_iteration cfg r).
Proof.
  unfold turns. rewrite map_app, concat_app. simpl. rewrite app_nil_r.
  reflexivity.
Qed.

Lemma inv_poll_init (cfg : Config) : inv_poll cfg (started cfg).
Proof.
  unfold inv_poll, started. simpl. repeat split.
  exists []. simpl. auto.
Qed.

Lemma inv_poll_step (cfg : Config) (l : Label) (s s' : Sys) :
  inv_poll cfg s -> step l s = Some s' -> inv_poll cfg s'.
Proof.
  intros (Hcfg & Hhs & rs & Htr) Hstep.
  assert (Hframe : ~ is_poll_move l -> inv_poll cfg s').
  { intros Hl.
    destruct (step_frame_poll l s s' Hl Hstep) as (Hp & Hh & Hc & He & Hpub).
    unfold inv_poll. rewrite Hp, Hh, Hc, He. split; [assumption|].
    split; [|exists rs; assumption].
    rewrite Hhs. unfold publish_all. rewrite Hpub. reflexivity. }
  destruct l as [r| | | | |]; try (apply Hframe; simpl; tauto).
  clear Hframe. simpl in Hstep.
  destruct (poll_step_inv r s s' Hstep)
    as (pc & es & Hgo & Hgc & _ & _ & _ & Hpc & Hhs' & Htrace).
  unfold inv_poll. rewrite Hgc, Hhs', Htrace, Hhs, Hpc, Hcfg. simpl.
  split; [reflexivity|]. split; [rewrite publish_all_app; reflexivity|].
  rewrite poll_events_app. rewrite Hcfg in Hgo.
  destruct (poll_goroutine_cases _ _ _ _ _ Hgo)
    as [(Hp & -> & ->) | [(Hp & -> & ->) | [(st & Hp & -> & ->) | (Hp & -> & ->)]]];
    rewrite Hp in Htr; simpl in Htr.
  - destruct Htr as [-> ->]. exists []. simpl. reflexivity.
  - exists rs. exists r. split; [reflexivity|].
    rewrite Htr. simpl. rewrite poll_events_logs. reflexivity.
  - destruct Htr as (r0 & -> & ->). exists rs, r0. simpl.
    rewrite <- app_assoc. simpl. reflexivity.
  - destruct Htr as (r0 & ->). exists (rs ++ [r0]). simpl.
    rewrite turns_snoc, poll_iteration_events. simpl.
    rewrite <- !app_assoc. simpl. rewrite <- !app_assoc. reflexivity.
Qed.

Lemma inv_poll_run (cfg : Config) (ls : list Label) (s : Sys) :
  run ls (started cfg) = Some s -> inv_poll cfg s.
Proof.
  intros Hrun. eapply run_invariant; [|apply inv_poll_init|exact Hrun].
  intros l a b Ha Hab. eapply inv_poll_step; eauto.
Qed.

Lemma requests_poll_events (es : list Event) :
  requests (poll_events es) = requests es.
Proof.
  induction es as [|e es IH]; [reflexivity|].
  destruct e; simpl; rewrite ?IH; reflexivity.
Qed.

Lemma sleeps_poll_events (es : list Event) :
  sleeps (poll_events es) = sleeps es.
Proof.
  induction es as [|e es IH]; [reflexivity|].
  destruct e; simpl; rewrite ?IH; reflexivity.
Qed.

Lemma publications_poll_events (es : list Event) :
  publications (poll_events es) = publications es.
Proof.
  induction es as [|e es IH]; [reflexivity|].
  destruct e; simpl; rewrite ?IH; reflexivity.
Qed.

Lemma requests_turns (cfg : Config) (rs : list GetResult) :
  requests (turns cfg rs)
  = replicate (length rs) (HealthCheckHttpEndpoint cfg, Timeout client).
Proof.
  induction rs as [|r rs IH]; [reflexivity|].
  change (turns cfg (r :: rs))
    with (events_of (poll_iteration cfg r) ++ turns cfg rs).
  rewrite requests_app, IH, poll_iteration_events. simpl.
  rewrite requests_app.
  destruct (probe_status_logs r) as (_ & -> & _). reflexivity.
Qed.

Lemma sleeps_turns (cfg : Config) (rs : list GetResult) :
  sleeps (turns cfg rs) = replicate (length rs) (Interval cfg).
Proof.
  induction rs as [|r rs IH]; [reflexivity|].
  change (turns cfg (r :: rs))
    with (events_of (poll_iteration cfg r) ++ turns cfg rs).
  rewrite sleeps_app, IH, poll_iteration_events. simpl.
  rewrite sleeps_app.
  destruct (probe_status_logs r) as (_ & _ & ->). reflexivity.
Qed.

Lemma publications_turns (cfg : Config) (rs : list GetResult) :
  publications (turns cfg rs) = map (fun r => ("", fst (probe_status r))) rs.
Proof.
  induction rs as [|r rs IH]; [reflexivity|].
  change (turns cfg (r :: rs))
    with (events_of (poll_iteration cfg r) ++ turns cfg rs).
  rewrite publications_app, IH, poll_iteration_events. simpl.
  rewrite publications_app.
  destruct (probe_status_logs r) as (-> & _ & _). reflexivity.
Qed.

(** The sleeps of the goroutine at any position: none yet, or the
    warm-up followed by one [Interval] per completed turn. *)
Lemma poll_trace_at_sleeps (cfg : Config) (rs : list GetResult) (pc : PollPC)
    (es : list Event) :
  poll_trace_at cfg rs pc es ->
  (pc = PollWarmup /\ sleeps es = []) \/
  sleeps es = StartPeriod cfg :: replicate (length rs) (Interval cfg).
Proof.
  destruct pc; simpl.
  - intros [].
  - intros [_ ->]. left. auto.
  - intros ->. right. simpl. rewrite sleeps_turns. reflexivity.
  - intros (r & _ & ->). right. simpl. rewrite sleeps_app, sleeps_turns. simpl.
    destruct (probe_status_logs r) as (_ & _ & ->). rewrite app_nil_r.
    reflexivity.
  - intros (r & ->). right. simpl. rewrite sleeps_app, sleeps_turns. simpl.
    rewrite sleeps_app.
    destruct (probe_status_logs r) as (_ & _ & ->). simpl. rewrite app_nil_r.
    reflexivity.
Qed.

(** The requests of the goroutine at any position: all alike. *)
Lemma poll_trace_at_requests (cfg : Config) (rs : list GetResult) (pc : PollPC)
    (es : list Event) :
  poll_trace_at cfg rs pc es ->
  exists n, requests es
            = replicate n (HealthCheckHttpEndpoint cfg, Timeout client) /\
            (n = 0 -> (pc = PollWarmup \/ pc = PollLoopTop) /\
                      publications es = []).
Proof.
  destruct pc; simpl.
  - intros [].
  - intros [_ ->]. exists 0. auto.
  - intros ->. exists (length rs). simpl. rewrite requests_turns.
    split; [reflexivity|]. intros Hn.
    rewrite publications_turns. destruct rs; [auto|discriminate].
  - intros (r & _ & ->). exists (length rs + 1). simpl.
    rewrite requests_app, requests_turns. simpl.
    destruct (probe_status_logs r) as (_ & -> & _).
    rewrite replicate_add. split; [reflexivity|lia].
  - intros (r & ->). exists (length rs + 1). simpl.
    rewrite requests_app, requests_turns. simpl. rewrite requests_app.
    destruct (probe_status_logs r) as (_ & -> & _). simpl.
    rewrite replicate_add. split; [reflexivity|lia].
Qed.

Lemma poll_trace_at_head (cfg : Config) (rs : list GetResult) (pc : PollPC)
    (es : list Event) :
  poll_trace_at cfg rs pc es ->
  es = [] \/ head es = Some (EvSleep (StartPeriod cfg)).
Proof.
  destruct pc; simpl.
  - intros [].
  - intros [_ ->]. auto.
  - intros ->. auto.
  - intros (r & _ & ->). auto.
  - intros (r & ->). auto.
Qed.

(* ===================================================================== *)
(** ** The cadence of the poll loop *)
(* ===================================================================== *)

(** C4: the poll goroutine first sleeps [StartPeriod], once, and never
    comes back to the warm-up; from then on it turns for ever through
    GET, publish, sleep [Interval], the same [Interval] after a success
    and after a failure.  Inside the process it always has a next step,
    whatever the other threads did; no move of another thread, those of
    [Shutdown] included, changes its position. *)
Theorem C4_poll_cadence (cfg : Config) :
  (forall r, poll_goroutine cfg r PollWarmup
             = Some (PollLoopTop, [EvSleep (StartPeriod cfg)])) /\
  (forall r pc pc' es, poll_goroutine cfg r pc = Some (pc', es) ->
     pc' <> PollWarmup /\ pc' <> PollNotLaunched) /\
  (forall r, events_of (poll_iteration cfg r)
             = EvHttpGet (HealthCheckHttpEndpoint cfg) (Timeout client)
               :: snd (probe_status r)
               ++ [EvSetServingStatus "" (fst (probe_status r));
                   EvSleep (Interval cfg)]) /\
  (forall rs, poll_loop cfg rs = Some (PollLoopTop, turns cfg rs) /\
              sleeps (turns cfg rs) = replicate (length rs) (Interval cfg)) /\
  (forall ls s, run ls (started cfg) = Some s ->
     (forall r, is_Some (poll_step r s)) /\
     (exists rs, poll_trace_at cfg rs (poll s) (poll_events (trace s))) /\
     (sleeps (trace s) = [] \/
      exists n, sleeps (trace s)
                = StartPeriod cfg :: replicate n (Interval cfg))) /\
  (forall l s s', ~ is_poll_move l -> step l s = Some s' -> poll s' = poll s).
Proof.
  split; [reflexivity|].
  split.
  { intros r pc pc' es H.
    destruct (poll_goroutine_cases _ _ _ _ _ H)
      as [(_ & -> & _) | [(_ & -> & _) | [(st & _ & -> & _) | (_ & -> & _)]]];
      split; discriminate. }
  split.
  { intros r. rewrite poll_iteration_events. reflexivity. }
  split.
  { intros rs. split; [apply poll_loop_events | apply sleeps_turns]. }
  split.
  - intros ls s Hrun.
    destruct (inv_poll_run cfg ls s Hrun) as (Hcfg & _ & rs & Htr).
    split; [|split].
    + intros r. unfold poll_step.
      destruct (poll s) eqn:Hpc; simpl in Htr |- *; try (eexists; reflexivity).
      * contradiction.
      * destruct (probe_status r). eexists; reflexivity.
    + exists rs. exact Htr.
    + rewrite <- sleeps_poll_events.
      destruct (poll_trace_at_sleeps _ _ _ _ Htr) as [[_ H] | H].
      * left. exact H.
      * right. eexists. exact H.
  - intros l s s' Hl Hstep.
    destruct (step_frame_poll l s s' Hl Hstep) as (H & _). exact H.
Qed.

Lemma C4_poll_cadence_witness :
  caller (state_after example_config example_early_shutdown)
    = ShutdownReturned None /\
  (forall r, is_Some (poll_step r
                        (state_after example_config example_early_shutdown))) /\
  (sleeps (trace (state_after example_config example_busy_shutdown)) = [] \/
   exists n, sleeps (trace (state_after example_config example_busy_shutdown))
             = (10 * Second)%Z :: replicate n (2 * Second)%Z) /\
  poll (state_after example_config (example_first_probe ++ [LShutdown]))
    = poll (state_after example_config example_first_probe).
Proof.
  pose proof (C4_poll_cadence example_config)
    as (_ & _ & _ & _ & Hrun & Hframe).
  assert (H1 : run example_early_shutdown (started example_config)
               = Some (state_after example_config example_early_shutdown))
    by (vm_compute; reflexivity).
  assert (H2 : run example_busy_shutdown (started example_config)
               = Some (state_after example_config example_busy_shutdown))
    by (vm_compute; reflexivity).
  assert (H3 : step LShutdown (state_after example_config example_first_probe)
               = Some (state_after example_config
                         (example_first_probe ++ [LShutdown])))
    by (vm_compute; reflexivity).
  split; [reflexivity|].
  split; [exact (proj1 (Hrun _ _ H1))|].
  split; [exact (proj2 (proj2 (Hrun _ _ H2)))|].
  apply (Hframe LShutdown _ _ (fun F : False => F) H3).
Defined.

(* ===================================================================== *)
(** ** The probe's request *)
(* ===================================================================== *)

(** C7, as stated, fails: with a PollConfig whose [requestTimeout] is one
    second the probe still goes out under the five seconds of the
    package-level client. *)
Lemma C7_counterexample :
  ~ (forall (g : ServerConfig) (pc : PollConfig) (r : GetResult),
       requests (events_of (poll_iteration (Config_of g pc) r))
       = spec_probe pc).
Proof.
  intros H.
  specialize (H {| NetAddr := {| Endpoint := "localhost:13133" |} |}
                example_poll_config (inr {| StatusCode := 200 |})).
  vm_compute in H. discriminate H.
Qed.

(** C7, amended: every probe issues exactly one HTTP GET, to the
    configured endpoint, and its client-side timeout is the [Timeout] of
    the package-level [client], five seconds, whatever the configuration
    holds; endpoint, start period and interval come from the
    configuration, which no step of the process changes.  The timeout is
    the same for every probe of every run.  The specification's probe is
    the code's exactly when [requestTimeout] is those five seconds. *)
Theorem C7_probe_request (cfg : Config) :
  Timeout client = (5 * Second)%Z /\
  (forall r, requests (events_of (poll_iteration cfg r))
             = [(HealthCheckHttpEndpoint cfg, Timeout client)]) /\
  (forall rs, requests (events_of (poll_loop cfg rs))
              = replicate (length rs)
                  (HealthCheckHttpEndpoint cfg, Timeout client)) /\
  (forall g pc r, requestTimeout pc = Timeout client ->
     requests (events_of (poll_iteration (Config_of g pc) r))
     = spec_probe pc) /\
  (forall ls s, run ls (started cfg) = Some s ->
     config (gc s) = cfg /\
     exists n, requests (trace s)
               = replicate n (HealthCheckHttpEndpoint cfg, Timeout client)).
Proof.
  assert (Hone : forall c r, requests (events_of (poll_iteration c r))
                             = [(HealthCheckHttpEndpoint c, Timeout client)]).
  { intros c r. rewrite poll_iteration_events. simpl. rewrite requests_app.
    destruct (probe_status_logs r) as (_ & -> & _). reflexivity. }
  split; [reflexivity|]. split; [apply Hone|]. split; [|split].
  - intros rs. rewrite poll_loop_events. simpl. apply requests_turns.
  - intros g pc r Ht. rewrite Hone. unfold spec_probe. rewrite Ht. reflexivity.
  - intros ls s Hrun.
    destruct (inv_poll_run cfg ls s Hrun) as (Hcfg & _ & rs & Htr).
    split; [exact Hcfg|].
    destruct (poll_trace_at_requests _ _ _ _ Htr) as (n & Hn & _).
    exists n. rewrite <- requests_poll_events. exact Hn.
Qed.

Lemma C7_probe_request_witness :
  requests (events_of (poll_iteration
                         (Config_of {| NetAddr := {| Endpoint := "localhost:13133" |} |}
                            {| endpoint := "http://localhost:8080/health";
                               startDelay := (10 * Second)%Z;
                               interval := (2 * Second)%Z;
                               requestTimeout := (5 * Second)%Z |})
                         (inr {| StatusCode := 200 |})))
    = [("http://localhost:8080/health", (5 * Second)%Z)] /\
  config (gc (state_after example_config example_busy_shutdown))
    = example_config.
Proof.
  pose proof (C7_probe_request example_config) as (_ & _ & _ & Hspec & Hrun).
  assert (H : run example_busy_shutdown (started example_config)
              = Some (state_after example_config example_busy_shutdown))
    by (vm_compute; reflexivity).
  split.
  - apply (Hspec {| NetAddr := {| Endpoint := "localhost:13133" |} |}
                 {| endpoint := "http://localhost:8080/health";
                    startDelay := (10 * Second)%Z;
                    interval := (2 * Second)%Z;
                    requestTimeout := (5 * Second)%Z |}
                 (inr {| StatusCode := 200 |})).
    reflexivity.
  - exact (proj1 (Hrun _ _ H)).
Defined.

(* ===================================================================== *)
(** ** The warm-up window *)
(* ===================================================================== *)

(** C9: after a successful [Start], as long as the first GET has not
    returned, the extension has published nothing, and as long as nothing
    is published the health table is the one [health.NewServer] made,
    which holds SERVING for the empty service name: [Check] of the empty
    name answers SERVING, whatever the state of the monitored backend.
    The first thing the poll goroutine does is the sleep of
    [StartPeriod], so the window covers it. *)
Theorem C9_warmup_answers_serving (cfg : Config) (ls : list Label) (s : Sys) :
  run ls (started cfg) = Some s ->
  (poll_events (trace s) = [] \/
   head (poll_events (trace s)) = Some (EvSleep (StartPeriod cfg))) /\
  (sleeps (trace s) = [] -> requests (trace s) = []) /\
  (requests (trace s) = [] -> publications (trace s) = []) /\
  (publications (trace s) = [] ->
     exists tbl, hs s = Some tbl /\ tbl = health_NewServer /\
                 Check "" tbl = HealthCheckResponse_SERVING).
Proof.
  intros Hrun.
  destruct (inv_poll_run cfg ls s Hrun) as (Hcfg & Hhs & rs & Htr).
  split; [eapply poll_trace_at_head; exact Htr|].
  split; [|split].
  - intros Hsl. rewrite <- sleeps_poll_events in Hsl.
    rewrite <- requests_poll_events.
    destruct (poll_trace_at_sleeps _ _ _ _ Htr) as [[Hpc _] | H].
    + rewrite Hpc in Htr. simpl in Htr. destruct Htr as [_ ->]. reflexivity.
    + rewrite H in Hsl. discriminate.
  - intros Hreq. rewrite <- requests_poll_events in Hreq.
    rewrite <- publications_poll_events.
    destruct (poll_trace_at_requests _ _ _ _ Htr) as (n & Hn & H0).
    destruct n as [|n].
    + apply H0. reflexivity.
    + rewrite Hn in Hreq. discriminate.
  - intros Hpub. exists health_NewServer.
    split; [|split; reflexivity].
    rewrite Hhs, publish_all_nil by assumption. reflexivity.
Qed.

Lemma C9_warmup_answers_serving_witness :
  poll (state_after example_config example_first_probe)
    = PollPublish HealthCheckResponse_NOT_SERVING /\
  exists tbl, hs (state_after example_config example_first_probe) = Some tbl /\
              tbl = health_NewServer /\
              Check "" tbl = HealthCheckResponse_SERVING.
Proof.
  assert (H : run example_first_probe (started example_config)
              = Some (state_after example_config example_first_probe))
    by (vm_compute; reflexivity).
  split; [reflexivity|].
  apply (C9_warmup_answers_serving example_config example_first_probe
           (state_after example_config example_first_probe) H).
  reflexivity.
Defined.

(* ===================================================================== *)
(** ** What is published *)
(* ===================================================================== *)

Lemma table_ok_NewServer : table_ok health_NewServer.
Proof.
  unfold table_ok, health_NewServer. split.
  - apply dom_singleton_L.
  - exists HealthCheckResponse_SERVING. split; [apply lookup_singleton_eq|].
    left. reflexivity.
Qed.

Lemma table_ok_publish (st : ServingStatus) (tbl : gmap string ServingStatus) :
  verdict st -> table_ok tbl -> table_ok (SetServingStatus "" st tbl).
Proof.
  intros Hst [Hdom _]. unfold table_ok, SetServingStatus. split.
  - rewrite dom_insert_L, Hdom. set_solver.
  - exists st. split; [apply lookup_insert_eq | exact Hst].
Qed.

Lemma inv_publish_boot (cfg : Config) : inv_publish (boot cfg).
Proof.
  unfold inv_publish, publishes_verdicts. simpl.
  split; [constructor|]. split; intros; discriminate.
Qed.

Lemma inv_publish_Start (cfg : Config) (env : StartEnv) :
  inv_publish (fst (Start env (boot cfg))).
Proof.
  unfold inv_publish, publishes_verdicts, Start.
  destruct (ToServer_err env); [|destruct (Listen_err env)]; simpl;
    (split; [constructor|]); (split; [intros; discriminate|]);
    intros tbl H; try discriminate.
  inversion H; subst. apply table_ok_NewServer.
Qed.

Lemma inv_publish_step (l : Label) (s s' : Sys) :
  inv_publish s -> step l s = Some s' -> inv_publish s'.
Proof.
  intros (Htr & Hpc & Htbl) Hstep.
  assert (Hframe : ~ is_poll_move l -> inv_publish s').
  { intros Hl.
    destruct (step_frame_poll l s s' Hl Hstep) as (Hp & Hh & _ & _ & Hpub).
    unfold inv_publish, publishes_verdicts. rewrite Hp, Hh, Hpub. auto. }
  destruct l as [r| | | | |]; try (apply Hframe; simpl; tauto).
  clear Hframe. simpl in Hstep.
  destruct (poll_step_inv r s s' Hstep)
    as (pc & es & Hgo & _ & _ & _ & _ & Hpc' & Hhs' & Htrace).
  unfold inv_publish, publishes_verdicts in *.
  rewrite Hpc', Hhs', Htrace, publications_app.
  destruct (poll_goroutine_cases _ _ _ _ _ Hgo)
    as [(Hp & -> & ->) | [(Hp & -> & ->) | [(st & Hp & -> & ->) | (Hp & -> & ->)]]].
  - simpl. rewrite app_nil_r. split; [assumption|].
    split; [intros; discriminate|].
    intros tbl H. destruct (hs s) as [t|]; [|discriminate].
    inversion H; subst. apply Htbl. reflexivity.
  - simpl. destruct (probe_status_logs r) as (-> & _ & _).
    rewrite app_nil_r. split; [assumption|].
    split; [intros st H; inversion H; apply probe_status_verdict|].
    intros tbl H. destruct (hs s) as [t|]; [|discriminate].
    inversion H; subst. unfold publish_all. simpl.
    destruct (probe_status_logs r) as (-> & _ & _). apply Htbl. reflexivity.
  - pose proof (Hpc st Hp) as Hst. simpl. split.
    + apply Forall_app. split; [assumption|].
      constructor; [|constructor]. simpl. auto.
    + split; [intros; discriminate|].
      intros tbl H. destruct (hs s) as [t|]; [|discriminate].
      inversion H; subst. unfold publish_all. simpl.
      apply table_ok_publish; [assumption|]. apply Htbl. reflexivity.
  - simpl. rewrite app_nil_r. split; [assumption|].
    split; [intros; discriminate|].
    intros tbl H. destruct (hs s) as [t|]; [|discriminate].
    inversion H; subst. apply Htbl. reflexivity.
Qed.

(** C8: whatever this extension does, started or not, with every status
    publication it sets the empty service name to SERVING or to
    NOT_SERVING: SERVICE_UNKNOWN is published for no name, and the health
    table holds nothing but a verdict for the empty name. *)
Theorem C8_only_verdicts_for_empty_name (cfg : Config) (env : StartEnv)
    (ls : list Label) (s : Sys) :
  run ls (boot cfg) = Some s \/ run ls (fst (Start env (boot cfg))) = Some s ->
  Forall (fun p => fst p = "" /\
                   (snd p = HealthCheckResponse_SERVING \/
                    snd p = HealthCheckResponse_NOT_SERVING))
         (publications (trace s)) /\
  (forall service,
     ~ In (service, HealthCheckResponse_SERVICE_UNKNOWN)
          (publications (trace s))) /\
  (forall tbl, hs s = Some tbl ->
     forall service st, tbl !! service = Some st ->
       service = "" /\ st <> HealthCheckResponse_SERVICE_UNKNOWN).
Proof.
  intros Hrun.
  assert (Hinv : inv_publish s).
  { destruct Hrun as [Hrun | Hrun].
    - eapply run_invariant; [|apply inv_publish_boot|exact Hrun].
      intros l a b Ha Hab. eapply inv_publish_step; eassumption.
    - eapply run_invariant; [|apply inv_publish_Start|exact Hrun].
      intros l a b Ha Hab. eapply inv_publish_step; eassumption. }
  destruct Hinv as (Htr & _ & Htbl). split; [exact Htr|]. split.
  - intros service Hin. unfold publishes_verdicts in Htr.
    rewrite List.Forall_forall in Htr. apply Htr in Hin.
    destruct Hin as [_ [H | H]]; discriminate.
  - intros tbl Hhs service st Hlook.
    destruct (Htbl tbl Hhs) as (Hdom & st0 & Hst0 & Hv).
    assert (Hin : service ∈ dom tbl) by (apply elem_of_dom; eauto).
    rewrite Hdom in Hin. apply elem_of_singleton in Hin. subst service.
    split; [reflexivity|].
    rewrite Hst0 in Hlook. inversion Hlook; subst.
    destruct Hv as [-> | ->]; discriminate.
Qed.

Lemma C8_only_verdicts_for_empty_name_witness :
  publications (trace (state_after example_config example_busy_shutdown))
    = [("", HealthCheckResponse_NOT_SERVING)] /\
  Forall (fun p => fst p = "" /\
                   (snd p = HealthCheckResponse_SERVING \/
                    snd p = HealthCheckResponse_NOT_SERVING))
         (publications
            (trace (state_after example_config example_busy_shutdown))).
Proof.
  assert (H : run example_busy_shutdown
                (fst (Start {| ToServer_err := None; Listen_err := None |}
                        (boot example_config)))
              = Some (state_after example_config example_busy_shutdown))
    by (vm_compute; reflexivity).
  split; [reflexivity|].
  exact (proj1 (C8_only_verdicts_for_empty_name example_config
                  {| ToServer_err := None; Listen_err := None |}
                  example_busy_shutdown
                  (state_after example_config example_busy_shutdown)
                  (or_intror H))).
Defined.

(* ===================================================================== *)
(** ** Shutdown and the serve goroutine *)
(* ===================================================================== *)

Lemma inv_lifecycle_init (cfg : Config) : inv_lifecycle (started cfg).
Proof.
  unfold inv_lifecycle, started. simpl.
  eexists _, _. split; [reflexivity|]. split; [reflexivity|]. simpl.
  repeat split; intros; try discriminate; congruence.
Qed.

Lemma inv_lifecycle_step (l : Label) (s s' : Sys) :
  inv_lifecycle s -> step l s = Some s' -> inv_lifecycle s'.
Proof.
  intros (c & srv & Hc & Hsrv & Hclosed & Hquit & Hdrained & Hret
          & Hlaunched & Hserving & Hexited & Hdone) Hstep.
  destruct l as [r| |e| | |]; simpl in Hstep.
  - destruct (poll_step_inv r s s' Hstep)
      as (pc & es & _ & Hgc & _ & Hserve & Hcaller & _ & _ & Htrace).
    unfold inv_lifecycle. rewrite Hgc, Hserve, Hcaller, Htrace.
    exists c, srv. do 3 (split; [assumption|]).
    split.
    { intros H. destruct (Hquit H). split; [assumption|].
      apply in_or_app. left. assumption. }
    repeat (split; [assumption|]). assumption.
  - destruct s as [[cfg osrv och] ln h pp sp cp tr]. simpl in *. subst.
    destruct c as [cl]. destruct srv as [q d sv n svc].
    unfold serve_step in Hstep. unfold inv_lifecycle. lifecycle_case.
  - destruct s as [[cfg osrv och] ln h pp sp cp tr]. simpl in *. subst.
    destruct c as [cl]. destruct srv as [q d sv n svc].
    unfold accept_error_step in Hstep. unfold inv_lifecycle. lifecycle_case.
  - destruct s as [[cfg osrv och] ln h pp sp cp tr]. simpl in *. subst.
    destruct c as [cl]. destruct srv as [q d sv n svc].
    unfold rpc_arrive_step in Hstep. unfold inv_lifecycle. lifecycle_case.
  - destruct s as [[cfg osrv och] ln h pp sp cp tr]. simpl in *. subst.
    destruct c as [cl]. destruct srv as [q d sv n svc].
    unfold rpc_done_step in Hstep. unfold inv_lifecycle. lifecycle_case.
  - destruct s as [[cfg osrv och] ln h pp sp cp tr]. simpl in *. subst.
    destruct c as [cl]. destruct srv as [q d sv n svc].
    unfold shutdown_step in Hstep. unfold inv_lifecycle. lifecycle_case.
Qed.

Lemma inv_lifecycle_run (cfg : Config) (ls : list Label) (s : Sys) :
  run ls (started cfg) = Some s -> inv_lifecycle s.
Proof.
  intros Hrun. eapply run_invariant; [|apply inv_lifecycle_init|exact Hrun].
  intros l a b Ha Hab. eapply inv_lifecycle_step; eassumption.
Qed.

(** In a started extension whose [Shutdown] has not returned, the move
    of [next_move] is possible and brings the return closer. *)
Lemma next_move_progress (s : Sys) :
  inv_lifecycle s -> (forall r, caller s <> ShutdownReturned r) ->
  exists s1, step (next_move s) s = Some s1 /\ remaining s1 < remaining s.
Proof.
  intros (c & srv & Hc & Hsrv & Hclosed & Hquit & Hdrained & Hret
          & Hlaunched & Hserving & Hexited & Hdone) Hcaller.
  destruct s as [[cfg osrv och] ln h pp sp cp tr]. simpl in *. subst.
  destruct c as [cl]. destruct srv as [q d sv n svc]. simpl in *.
  unfold next_move, remaining, step. simpl.
  destruct cp as [| | |r]; [| | |exfalso; eapply Hcaller; reflexivity]; simpl.
  - eexists. split; [reflexivity|]. simpl. lia.
  - destruct Hquit as [-> _]; [discriminate|].
    destruct n as [|n]; simpl; [|eexists; split; [reflexivity|simpl; lia]].
    destruct sp; simpl; try congruence;
      try (destruct sv; [specialize (Hserving eq_refl); discriminate|]);
      unfold shutdown_step, serve_step; simpl;
      eexists; (split; [reflexivity|]); simpl; lia.
  - destruct Hquit as [-> _]; [discriminate|].
    destruct Hdrained as [-> ->]; [discriminate|discriminate|].
    rewrite Hdone in * by discriminate.
    destruct sp; simpl; try congruence;
      unfold shutdown_step, serve_step; simpl.
    + eexists; (split; [reflexivity|]); simpl; lia.
    + eexists; (split; [reflexivity|]); simpl; lia.
    + eexists; (split; [reflexivity|]); simpl; lia.
    + destruct err as [e|]; [destruct (reports_fault (Some e))|];
        eexists; (split; [reflexivity|]); simpl; lia.
    + eexists; (split; [reflexivity|]); simpl; lia.
    + rewrite Hexited by reflexivity.
      eexists; (split; [reflexivity|]); simpl; lia.
Qed.

(** From every state of a started extension the moves of [finish] lead
    to the return of [Shutdown]. *)
Lemma Shutdown_completes (n : nat) (s : Sys) :
  remaining s < n -> inv_lifecycle s ->
  exists s', run (finish n s) s = Some s' /\
             caller s' = ShutdownReturned None.
Proof.
  revert s. induction n as [|n IH]; intros s Hn Hinv; [lia|].
  destruct (caller s) as [| | |r] eqn:Hc.
  4: { exists s. simpl. rewrite Hc. split; [reflexivity|].
       destruct Hinv as (c & srv & _ & _ & _ & _ & _ & Hret & _).
       destruct (Hret r Hc) as [-> _]. reflexivity. }
  all: destruct (next_move_progress s Hinv) as (s1 & Hstep & Hlt);
    [intros r Hr; congruence|];
    destruct (IH s1) as (s' & Hrun & Hs');
    [lia | eapply inv_lifecycle_step; eassumption |];
    exists s'; simpl; rewrite Hc, Hstep; simpl; rewrite Hstep;
    split; assumption.
Qed.

(** C5: on a started extension, [Shutdown] first calls [GracefulStop],
    after which the server accepts no new RPC, and it returns (nil) only
    once the RPCs in flight are done and the serve goroutine has run its
    deferred [close(gc.stopCh)] and exited: in no reachable state has
    [Shutdown] returned while the serve goroutine is still there, a
    caller at the receive cannot move before the goroutine has exited,
    and from every reachable state [Shutdown] can be brought to its
    return. *)
Theorem C5_Shutdown_waits_for_serve (cfg : Config) (ls : list Label) (s : Sys) :
  run ls (started cfg) = Some s ->
  (caller s <> ShutdownNotCalled ->
     In EvGracefulStop (trace s) /\ rpc_arrive_step s = None) /\
  (caller s = ShutdownRecv ->
     serve s <> ServeExited -> shutdown_step s = None) /\
  (forall r, caller s = ShutdownReturned r ->
     r = None /\ serve s = ServeExited /\
     exists srv, server (gc s) = Some srv /\
                 inflight srv = 0 /\ serving srv = false) /\
  (serve s <> ServeExited -> forall r, caller s <> ShutdownReturned r) /\
  (exists s', run (finish (S (remaining s)) s) s = Some s' /\
              caller s' = ShutdownReturned None /\ serve s' = ServeExited).
Proof.
  intros Hrun.
  pose proof (inv_lifecycle_run cfg ls s Hrun) as Hinv.
  destruct Hinv
    as (c & srv & Hc & Hsrv & Hclosed & Hquit & Hdrained & Hret & _).
  split; [|split; [|split; [|split]]].
  - intros Hcalled. destruct (Hquit Hcalled) as [Hq Hin].
    split; [exact Hin|].
    unfold rpc_arrive_step. rewrite Hsrv, Hq.
    destruct (serve s); reflexivity.
  - intros Hrecv Hserve. unfold shutdown_step. rewrite Hrecv, Hc.
    destruct (closed c) eqn:Hcl; [|reflexivity].
    exfalso. apply Hserve, Hclosed. reflexivity.
  - intros r Hr. destruct (Hret r Hr) as [-> Hcl].
    split; [reflexivity|]. split; [apply Hclosed, Hcl|].
    exists srv. split; [exact Hsrv|].
    apply Hdrained; rewrite Hr; discriminate.
  - intros Hserve r Hr. destruct (Hret r Hr) as [_ Hcl].
    apply Hserve, Hclosed, Hcl.
  - destruct (Shutdown_completes (S (remaining s)) s)
      as (s' & Hrun' & Hs'); [lia | exact (inv_lifecycle_run cfg ls s Hrun) |].
    exists s'. split; [exact Hrun'|]. split; [exact Hs'|].
    assert (Hinv' : inv_lifecycle s').
    { eapply run_invariant; [|exact (inv_lifecycle_run cfg ls s Hrun)|exact Hrun'].
      intros l a b' Ha Hab. eapply inv_lifecycle_step; eassumption. }
    destruct Hinv' as (c' & srv' & _ & _ & Hclosed' & _ & _ & Hret' & _).
    apply Hclosed'. apply (Hret' None Hs').
Qed.

Lemma C5_Shutdown_waits_for_serve_witness :
  caller (state_after example_config example_busy_shutdown)
    = ShutdownReturned None /\
  serve (state_after example_config example_busy_shutdown) = ServeExited /\
  trace (state_after example_config example_early_shutdown)
    = [EvLogInfo "Starting grpc_health_check extension"; EvGracefulStop;
       EvServe; EvCloseStopCh; EvRecvStopCh].
Proof.
  assert (H : run example_busy_shutdown (started example_config)
              = Some (state_after example_config example_busy_shutdown))
    by (vm_compute; reflexivity).
  pose proof (C5_Shutdown_waits_for_serve example_config
                example_busy_shutdown
                (state_after example_config example_busy_shutdown) H)
    as (_ & _ & Hret & _).
  split; [reflexivity|].
  split; [|reflexivity].
  exact (proj1 (proj2 (Hret None eq_refl))).
Defined.

(* ===================================================================== *)
(** ** Reporting a failed serve loop *)
(* ===================================================================== *)





(** An error that wraps the sentinel is not one the listener fails
    with. *)
Lemma wrapped_sentinel_not_listener_error (msg : string) :
  ~ listener_error (wrapError msg ErrServerStopped).
Proof. unfold listener_error. cbn. discriminate. Qed.





(* ===================================================================== *)
(** ** Start, all or nothing *)
(* ===================================================================== *)

(** X1: [Start] returns nil exactly when both the construction of the
    server and the bind succeed; then both goroutines are launched, the
    listener is bound at the configured endpoint, [stopCh] is open, the
    health table is fresh and the health service is registered on a
    server nobody has stopped.  When it returns an error
    nothing runs.  [gc.server] is set exactly when the construction
    succeeded, and the configuration is the one given to [newServer]. *)
Theorem X1_Start_all_or_nothing (cfg : Config) (env : StartEnv) :
  (snd (Start env (boot cfg)) = None <->
   ToServer_err env = None /\ Listen_err env = None) /\
  (snd (Start env (boot cfg)) = None ->
   poll (fst (Start env (boot cfg))) = PollWarmup /\
   serve (fst (Start env (boot cfg))) = ServeLaunched /\
   listener (fst (Start env (boot cfg)))
     = Some (Endpoint (NetAddr (Grpc cfg))) /\
   stopCh (gc (fst (Start env (boot cfg)))) = Some {| closed := false |} /\
   hs (fst (Start env (boot cfg))) = Some health_NewServer /\
   exists srv, server (gc (fst (Start env (boot cfg)))) = Some srv /\
               In "grpc.health.v1.Health" (services srv) /\
               quitFired srv = false /\ inflight srv = 0) /\
  (snd (Start env (boot cfg)) <> None ->
   nothing_running (fst (Start env (boot cfg)))) /\
  (server (gc (fst (Start env (boot cfg)))) = None <->
   ToServer_err env <> None) /\
  config (gc (fst (Start env (boot cfg)))) = cfg.
Proof.
  unfold Start.
  destruct (ToServer_err env) as [e1|] eqn:HT;
    [|destruct (Listen_err env) as [e2|] eqn:HL]; simpl.
  - split; [split; [discriminate | intros [? _]; discriminate]|].
    split; [discriminate|].
    split; [intros _; repeat split|].
    split; [split; [discriminate | reflexivity]|reflexivity].
  - split; [split; [discriminate | intros [_ ?]; discriminate]|].
    split; [discriminate|].
    split; [intros _; repeat split|].
    split; [split; [discriminate | intros H; congruence]|reflexivity].
  - split; [split; auto|].
    split.
    + intros _. repeat split. eexists. split; [reflexivity|].
      split; [left; reflexivity|]. split; reflexivity.
    + split; [congruence|].
      split; [split; [discriminate | intros H; congruence]|reflexivity].
Qed.

Lemma X1_Start_all_or_nothing_witness :
  poll (started example_config) = PollWarmup /\
  serve (started example_config) = ServeLaunched /\
  nothing_running
    (fst (Start {| ToServer_err := Some (errorString "bad TLS settings");
                   Listen_err := None |} (boot example_config))).
Proof.
  pose proof (X1_Start_all_or_nothing example_config
                {| ToServer_err := None; Listen_err := None |})
    as (_ & Hok & _).
  pose proof (X1_Start_all_or_nothing example_config
                {| ToServer_err := Some (errorString "bad TLS settings");
                   Listen_err := None |})
    as (_ & _ & Hfail & _).
  destruct (Hok eq_refl) as (Hp & Hs & _).
  split; [exact Hp|]. split; [exact Hs|].
  apply Hfail. simpl. discriminate.
Defined.

(** X2: after a [Start] that returned an error, whichever step failed,
    [Shutdown] returns nil within two steps of its own and never touches
    [stopCh]; it calls [GracefulStop] exactly when the failing [Start] had
    built the server, and nothing runs afterwards. *)
Theorem X2_Shutdown_after_failed_Start (cfg : Config) (env : StartEnv)
    (fuel : nat) :
  snd (Start env (boot cfg)) <> None ->
  snd (Shutdown (2 + fuel) (fst (Start env (boot cfg)))) = Some None /\
  (In EvGracefulStop
      (trace (fst (Shutdown (2 + fuel) (fst (Start env (boot cfg))))))
   <-> ToServer_err env = None) /\
  ~ In EvRecvStopCh
      (trace (fst (Shutdown (2 + fuel) (fst (Start env (boot cfg)))))) /\
  nothing_running (fst (Shutdown (2 + fuel) (fst (Start env (boot cfg))))).
Proof.
  intros Hfail. destruct env as [[e1|] [e2|]].
  - assert (H : Shutdown (2 + fuel)
                  (fst (Start {| ToServer_err := Some e1;
                                 Listen_err := Some e2 |} (boot cfg)))
                = Shutdown 1
                    (fst (Start {| ToServer_err := Some e1;
                                   Listen_err := Some e2 |} (boot cfg))))
      by (destruct fuel; reflexivity).
    rewrite H. cbn. split; [reflexivity|].
    split; [split; [intros [H1|[]]; discriminate H1 | discriminate]|].
    split; [intros [H1|[]]; discriminate H1|]. repeat split.
  - assert (H : Shutdown (2 + fuel)
                  (fst (Start {| ToServer_err := Some e1;
                                 Listen_err := None |} (boot cfg)))
                = Shutdown 1
                    (fst (Start {| ToServer_err := Some e1;
                                   Listen_err := None |} (boot cfg))))
      by (destruct fuel; reflexivity).
    rewrite H. cbn. split; [reflexivity|].
    split; [split; [intros [H1|[]]; discriminate H1 | discriminate]|].
    split; [intros [H1|[]]; discriminate H1|]. repeat split.
  - assert (H : Shutdown (2 + fuel)
                  (fst (Start {| ToServer_err := None;
                                 Listen_err := Some e2 |} (boot cfg)))
                = Shutdown 2
                    (fst (Start {| ToServer_err := None;
                                   Listen_err := Some e2 |} (boot cfg))))
      by (destruct fuel; reflexivity).
    rewrite H. cbn. split; [reflexivity|].
    split; [split; [reflexivity | intros _; right; left; reflexivity]|].
    split; [intros [H1|[H1|[]]]; discriminate H1|]. repeat split.
  - exfalso. apply Hfail. reflexivity.
Qed.

Lemma X2_Shutdown_after_failed_Start_witness :
  snd (Shutdown 2
         (fst (Start {| ToServer_err := Some (errorString "bad TLS settings");
                        Listen_err := None |} (boot example_config))))
    = Some None.
Proof.
  apply (X2_Shutdown_after_failed_Start example_config
           {| ToServer_err := Some (errorString "bad TLS settings");
              Listen_err := None |} 0).
  cbn. discriminate.
Defined.

(* ===================================================================== *)
(** ** The error of a failed bind *)
(* ===================================================================== *)

(** [errors.Is] on a wrapper: the wrapper itself, or what it wraps. *)
Lemma errors_Is_chain_wrapError (msg : string) (e target : error) :
  errors_Is_chain (wrapError msg e) target = true <->
  target = wrapError msg e \/ errors_Is_chain e target = true.
Proof.
  cbn [errors_Is_chain].
  destruct (decide (wrapError msg e = target)) as [<-|Hne].
  - split; auto.
  - split; [auto|]. intros [->|H]; [contradiction|assumption].
Qed.

(** X3: the error [Start] returns for a failed bind reads
    "failed to bind to address <endpoint>: <cause>", and [errors.Is]
    finds in it every error it finds in the cause, and beside those the
    returned error itself only: the caller can still match what the
    listener failed with.  A construction error comes back as it is. *)
Theorem X3_bind_error_keeps_cause (cfg : Config) (cause target : error) :
  (exists e,
     snd (Start {| ToServer_err := None; Listen_err := Some cause |}
            (boot cfg)) = Some e /\
     Error e = "failed to bind to address "
               +:+ Endpoint (NetAddr (Grpc cfg)) +:+ ": " +:+ Error cause /\
     (errors_Is (Some e) target = true <->
      target = e \/ errors_Is (Some cause) target = true)) /\
  (forall listen,
     snd (Start {| ToServer_err := Some cause; Listen_err := listen |}
            (boot cfg)) = Some cause).
Proof.
  split.
  - eexists. split; [reflexivity|]. split; [reflexivity|].
    simpl. unfold Errorf_bind. apply errors_Is_chain_wrapError.
  - intros listen. reflexivity.
Qed.

(* ===================================================================== *)
(** ** What the health table says *)
(* ===================================================================== *)

Lemma Check_after_publications (ps : list (string * ServingStatus))
    (tbl : gmap string ServingStatus) :
  Forall (fun p => fst p = "") ps ->
  Check "" (foldl (fun t p => SetServingStatus (fst p) (snd p) t) tbl ps)
  = default (Check "" tbl) (snd <$> last ps).
Proof.
  revert tbl. induction ps as [|p ps IH]; intros tbl Hps; [reflexivity|].
  inversion Hps as [|? ? Hp Hps']; subst. simpl foldl. rewrite IH by assumption.
  destruct ps as [|q ps].
  - simpl. unfold Check, SetServingStatus. rewrite Hp, lookup_insert_eq.
    reflexivity.
  - rewrite last_cons_cons.
    destruct (last (q :: ps)) as [x|] eqn:Hlast; [reflexivity|].
    apply last_None in Hlast. discriminate.
Qed.

Lemma inv_publish_run (cfg : Config) (ls : list Label) (s : Sys) :
  run ls (started cfg) = Some s -> inv_publish s.
Proof.
  intros Hrun.
  eapply run_invariant;
    [|apply (inv_publish_Start cfg {| ToServer_err := None; Listen_err := None |})
     |exact Hrun].
  intros l a b Ha Hab. eapply inv_publish_step; eassumption.
Qed.

(** X4: at every moment of a started extension, [Check] of the empty
    service name answers the verdict of the latest publication, and
    SERVING as long as there is none; the moves of [Shutdown] leave the
    health table as it is, so the answer after a shutdown is still that
    of the last probe. *)
Theorem X4_Check_answers_last_verdict (cfg : Config) (ls : list Label)
    (s : Sys) :
  run ls (started cfg) = Some s ->
  exists tbl,
    hs s = Some tbl /\
    Check "" tbl
    = default HealthCheckResponse_SERVING
        (snd <$> last (publications (trace s))) /\
    (forall s', step LShutdown s = Some s' -> hs s' = Some tbl).
Proof.
  intros Hrun.
  destruct (inv_poll_run cfg ls s Hrun) as (_ & Hhs & _).
  destruct (inv_publish_run cfg ls s Hrun) as (Hpubs & _).
  exists (publish_all (trace s) health_NewServer).
  split; [exact Hhs|]. split.
  - unfold publish_all. rewrite Check_after_publications.
    + reflexivity.
    + unfold publishes_verdicts in Hpubs.
      eapply Forall_impl; [exact Hpubs|]. intros p [Hp _]. exact Hp.
  - intros s' Hstep.
    destruct (step_frame_poll LShutdown s s' (fun F : False => F) Hstep)
      as (_ & Hh & _).
    rewrite Hh. exact Hhs.
Qed.

Lemma X4_Check_answers_last_verdict_witness :
  exists tbl,
    hs (state_after example_config example_busy_shutdown) = Some tbl /\
    Check "" tbl = HealthCheckResponse_NOT_SERVING.
Proof.
  assert (H : run example_busy_shutdown (started example_config)
              = Some (state_after example_config example_busy_shutdown))
    by (vm_compute; reflexivity).
  destruct (X4_Check_answers_last_verdict example_config
              example_busy_shutdown _ H) as (tbl & Hhs & Hcheck & _).
  exists tbl. split; [exact Hhs|]. rewrite Hcheck. reflexivity.
Defined.

(* ===================================================================== *)
(** ** Publications follow the probes *)
(* ===================================================================== *)

Lemma probed_run (cfg : Config) (ls : list Label) :
  forall s0 s, config (gc s0) = cfg -> run ls s0 = Some s ->
  map snd (publications (trace s)) ++ pending (poll s)
  = map snd (publications (trace s0)) ++ pending (poll s0)
    ++ map (fun r => fst (probe_status r)) (probed cfg (poll s0) ls) /\
  length (requests (trace s))
  = length (requests (trace s0)) + length (probed cfg (poll s0) ls).
Proof.
  induction ls as [|l ls IH]; intros s0 s Hcfg Hrun.
  - simpl in Hrun. inversion Hrun; subst. simpl.
    rewrite app_nil_r. split; [reflexivity|lia].
  - simpl in Hrun. destruct (step l s0) as [s1|] eqn:Hstep; [|discriminate].
    assert (Hother : ~ is_poll_move l ->
              probed cfg (poll s0) (l :: ls) = probed cfg (poll s0) ls ->
              map snd (publications (trace s)) ++ pending (poll s)
              = map snd (publications (trace s0)) ++ pending (poll s0)
                ++ map (fun r => fst (probe_status r))
                     (probed cfg (poll s0) (l :: ls)) /\
              length (requests (trace s))
              = length (requests (trace s0))
                + length (probed cfg (poll s0) (l :: ls))).
    { intros Hl Hpr.
      destruct (step_frame_poll l s0 s1 Hl Hstep) as (Hp & _ & Hc & He & Hpub).
      destruct (IH s1 s) as [H1 H2]; [congruence|assumption|].
      rewrite Hpr, H1, H2, Hp, Hpub.
      rewrite <- (requests_poll_events (trace s1)), He, requests_poll_events.
      split; reflexivity. }
    destruct l as [r| | | | |]; try (apply Hother; [simpl; tauto|reflexivity]).
    clear Hother. simpl in Hstep.
    destruct (poll_step_inv r s0 s1 Hstep)
      as (pc & es & Hgo & Hgc & _ & _ & _ & Hpc & _ & Htrace).
    rewrite Hcfg in Hgo.
    destruct (IH s1 s) as [H1 H2]; [congruence|assumption|].
    rewrite H1, H2, Hpc, Htrace, publications_app, requests_app.
    cbn [probed]. rewrite Hgo.
    destruct (poll_goroutine_cases _ _ _ _ _ Hgo)
      as [(Hp & -> & ->) | [(Hp & -> & ->) | [(st & Hp & -> & ->) | (Hp & -> & ->)]]];
      rewrite Hp; simpl.
    + rewrite !app_nil_r. split; [reflexivity|lia].
    + destruct (probe_status_logs r) as (-> & -> & _). simpl.
      rewrite !app_nil_r, length_app. simpl. split; [reflexivity|lia].
    + rewrite map_app, app_nil_r. simpl. rewrite <- app_assoc.
      split; [reflexivity|lia].
    + rewrite !app_nil_r. split; [reflexivity|lia].
Qed.

(** X5: in every run of a started extension the statuses published so
    far, followed by the one computed and not yet published, are the
    verdicts of the GET results the goroutine received, one for one and
    in the order received: no result is skipped, repeated or published
    out of turn; and one request went out per result. *)
Theorem X5_publications_follow_probes (cfg : Config) (ls : list Label)
    (s : Sys) :
  run ls (started cfg) = Some s ->
  map snd (publications (trace s)) ++ pending (poll s)
  = map (fun r => fst (probe_status r)) (probed cfg PollWarmup ls) /\
  length (requests (trace s)) = length (probed cfg PollWarmup ls).
Proof.
  intros Hrun.
  destruct (probed_run cfg ls (started cfg) s eq_refl Hrun) as [H1 H2].
  split; [exact H1 | exact H2].
Qed.

Lemma X5_publications_follow_probes_witness :
  map snd (publications (trace (state_after example_config example_three_probes)))
  ++ pending (poll (state_after example_config example_three_probes))
  = [HealthCheckResponse_SERVING; HealthCheckResponse_NOT_SERVING;
     HealthCheckResponse_NOT_SERVING].
Proof.
  assert (H : run example_three_probes (started example_config)
              = Some (state_after example_config example_three_probes))
    by (vm_compute; reflexivity).
  rewrite (proj1 (X5_publications_follow_probes example_config
                    example_three_probes _ H)).
  reflexivity.
Defined.

(** The counts of the goroutine's events at any position. *)
Lemma poll_trace_at_counts (cfg : Config) (rs : list GetResult) (pc : PollPC)
    (es : list Event) :
  poll_trace_at cfg rs pc es ->
  length (publications es) <= length (requests es) /\
  length (requests es) <= length (sleeps es) /\
  length (sleeps es) <= length (publications es) + 1.
Proof.
  destruct pc; simpl.
  - intros [].
  - intros [_ ->]. simpl. lia.
  - intros ->. simpl.
    rewrite publications_turns, requests_turns, sleeps_turns.
    rewrite length_map, !length_replicate. lia.
  - intros (r & _ & ->). simpl.
    rewrite publications_app, requests_app, sleeps_app.
    rewrite publications_turns, requests_turns, sleeps_turns. simpl.
    destruct (probe_status_logs r) as (-> & -> & ->).
    rewrite !length_app, length_map, !length_replicate. simpl. lia.
  - intros (r & ->). simpl.
    rewrite publications_app, requests_app, sleeps_app.
    rewrite publications_turns, requests_turns, sleeps_turns. simpl.
    rewrite publications_app, requests_app, sleeps_app.
    destruct (probe_status_logs r) as (-> & -> & ->).
    rewrite !length_app, length_map, !length_replicate. simpl. lia.
Qed.

(** X6: at every moment of a started extension the goroutine has
    published no more often than it has probed, probed no more often than
    it has slept, and slept at most once more than it has published:
    every probe comes after a sleep of its own (the warm-up for the
    first, an interval for each later one) and is published before the
    next sleep begins. *)
Theorem X6_sleep_probe_publish_counts (cfg : Config) (ls : list Label)
    (s : Sys) :
  run ls (started cfg) = Some s ->
  length (publications (trace s)) <= length (requests (trace s)) /\
  length (requests (trace s)) <= length (sleeps (trace s)) /\
  length (sleeps (trace s)) <= length (publications (trace s)) + 1.
Proof.
  intros Hrun.
  destruct (inv_poll_run cfg ls s Hrun) as (_ & _ & rs & Htr).
  rewrite <- publications_poll_events, <- requests_poll_events,
    <- sleeps_poll_events.
  eapply poll_trace_at_counts. exact Htr.
Qed.

Lemma X6_sleep_probe_publish_counts_witness :
  length (publications
            (trace (state_after example_config example_three_probes))) = 2 /\
  length (requests
            (trace (state_after example_config example_three_probes)))
  <= length (sleeps
               (trace (state_after example_config example_three_probes))).
Proof.
  assert (H : run example_three_probes (started example_config)
              = Some (state_after example_config example_three_probes))
    by (vm_compute; reflexivity).
  split; [reflexivity|].
  exact (proj1 (proj2 (X6_sleep_probe_publish_counts example_config
                         example_three_probes _ H))).
Defined.

(* ===================================================================== *)
(** ** The error log of the poll loop *)
(* ===================================================================== *)

Lemma error_logs_app (es es' : list Event) :
  error_logs (es ++ es') = error_logs es ++ error_logs es'.
Proof. apply omap_app. Qed.

Lemma error_logs_poll_events (es : list Event) :
  error_logs (poll_events es) = error_logs es.
Proof.
  induction es as [|e es IH]; [reflexivity|].
  destruct e; simpl; rewrite ?IH; reflexivity.
Qed.

Lemma not_serving_app (l l' : list ServingStatus) :
  not_serving (l ++ l') = not_serving l + not_serving l'.
Proof. apply count_occ_app. Qed.

(** One log line for a NOT_SERVING verdict, none for SERVING. *)
Lemma probe_status_log_count (r : GetResult) :
  length (error_logs (snd (probe_status r)))
  = not_serving [fst (probe_status r)] /\
  Forall (fun msg => msg = "Failed to get health check status" \/
                     msg = "Service seems to be unhealthy")
         (error_logs (snd (probe_status r))).
Proof.
  destruct r as [err|resp]; simpl.
  - split; [reflexivity|]. constructor; [left; reflexivity|constructor].
  - destruct ((StatusCode resp <? 200)%Z || (StatusCode resp >=? 300)%Z);
      simpl; (split; [reflexivity|]).
    + constructor; [right; reflexivity|constructor].
    + constructor.
Qed.

Lemma error_logs_iteration (cfg : Config) (r : GetResult) :
  error_logs (events_of (poll_iteration cfg r))
  = error_logs (snd (probe_status r)).
Proof.
  rewrite poll_iteration_events. unfold events_of, from_option, snd at 1.
  transitivity (error_logs
                  (snd (probe_status r)
                     ++ [EvSetServingStatus "" (fst (probe_status r));
                         EvSleep (Interval cfg)])); [reflexivity|].
  rewrite error_logs_app. simpl. apply app_nil_r.
Qed.

Lemma error_logs_turns (cfg : Config) (rs : list GetResult) :
  length (error_logs (turns cfg rs))
  = not_serving (map (fun r => fst (probe_status r)) rs) /\
  Forall (fun msg => msg = "Failed to get health check status" \/
                     msg = "Service seems to be unhealthy")
         (error_logs (turns cfg rs)).
Proof.
  induction rs as [|r rs [IH1 IH2]]; [split; [reflexivity|constructor]|].
  change (turns cfg (r :: rs))
    with (events_of (poll_iteration cfg r) ++ turns cfg rs).
  rewrite error_logs_app, error_logs_iteration.
  destruct (probe_status_log_count r) as [Hn Hm].
  split.
  - rewrite length_app, Hn, IH1.
    change (map (fun r0 => fst (probe_status r0)) (r :: rs))
      with ([fst (probe_status r)]
              ++ map (fun r0 => fst (probe_status r0)) rs).
    rewrite not_serving_app. reflexivity.
  - apply Forall_app. split; assumption.
Qed.

Lemma poll_trace_at_error_logs (cfg : Config) (rs : list GetResult)
    (pc : PollPC) (es : list Event) :
  poll_trace_at cfg rs pc es ->
  length (error_logs es)
  = not_serving (map snd (publications es) ++ pending pc) /\
  Forall (fun msg => msg = "Failed to get health check status" \/
                     msg = "Service seems to be unhealthy")
         (error_logs es).
Proof.
  destruct (error_logs_turns cfg rs) as [Hn Hm].
  assert (Hpub : map snd (publications (turns cfg rs))
                 = map (fun r => fst (probe_status r)) rs).
  { rewrite publications_turns, map_map. reflexivity. }
  destruct pc; simpl.
  - intros [].
  - intros [_ ->]. split; [reflexivity|constructor].
  - intros ->. simpl. rewrite app_nil_r, Hpub. split; assumption.
  - intros (r & -> & ->). simpl.
    rewrite error_logs_app, publications_app. simpl.
    destruct (probe_status_logs r) as (-> & _ & _).
    destruct (probe_status_log_count r) as [Hn' Hm'].
    rewrite app_nil_r, Hpub. split.
    + rewrite length_app, not_serving_app, Hn, Hn'. reflexivity.
    + apply Forall_app. split; assumption.
  - intros (r & ->). simpl.
    rewrite error_logs_app, publications_app. simpl.
    rewrite error_logs_app, publications_app. simpl.
    destruct (probe_status_logs r) as (-> & _ & _).
    destruct (probe_status_log_count r) as [Hn' Hm'].
    rewrite !app_nil_r, map_app, Hpub. simpl. split.
    + rewrite length_app, not_serving_app, Hn, Hn'. reflexivity.
    + apply Forall_app. split; assumption.
Qed.

(** X7: a failed probe is logged and nothing else: at every moment of a
    started extension the error log holds exactly one line for each
    NOT_SERVING verdict computed so far (published or about to be) and
    none for a SERVING one, and each line is one of the two messages of
    the loop. *)
Theorem X7_one_log_line_per_failed_probe (cfg : Config) (ls : list Label)
    (s : Sys) :
  run ls (started cfg) = Some s ->
  length (error_logs (trace s))
  = not_serving (map snd (publications (trace s)) ++ pending (poll s)) /\
  Forall (fun msg => msg = "Failed to get health check status" \/
                     msg = "Service seems to be unhealthy")
         (error_logs (trace s)).
Proof.
  intros Hrun.
  destruct (inv_poll_run cfg ls s Hrun) as (_ & _ & rs & Htr).
  rewrite <- error_logs_poll_events, <- publications_poll_events.
  eapply poll_trace_at_error_logs. exact Htr.
Qed.

Lemma X7_one_log_line_per_failed_probe_witness :
  error_logs (trace (state_after example_config example_three_probes))
  = ["Service seems to be unhealthy"; "Failed to get health check status"] /\
  length (error_logs (trace (state_after example_config example_three_probes)))
  = not_serving
      (map snd (publications
                  (trace (state_after example_config example_three_probes)))
       ++ pending (poll (state_after example_config example_three_probes))).
Proof.
  assert (H : run example_three_probes (started example_config)
              = Some (state_after example_config example_three_probes))
    by (vm_compute; reflexivity).
  split; [reflexivity|].
  exact (proj1 (X7_one_log_line_per_failed_probe example_config
                  example_three_probes _ H)).
Defined.

(* ===================================================================== *)
(** ** Faults, and the order of the stop protocol *)
(* ===================================================================== *)

Lemma run_snoc (ls : list Label) (l : Label) (s0 s : Sys) :
  run (ls ++ [l]) s0 = Some s ->
  exists s1, run ls s0 = Some s1 /\ step l s1 = Some s.
Proof.
  rewrite run_app. destruct (run ls s0) as [s1|]; [|discriminate].
  simpl. destruct (step l s1) as [s2|] eqn:Hstep; [|discriminate].
  intros H. inversion H; subst. exists s1. auto.
Qed.

(** The poll goroutine reports no fault and takes no part in the stop
    protocol. *)
Lemma poll_goroutine_quiet (cfg : Config) (r : GetResult) (pc pc' : PollPC)
    (es : list Event) :
  poll_goroutine cfg r pc = Some (pc', es) ->
  faults es = [] /\ forall w, foldl watch w es = w.
Proof.
  intros Hgo.
  destruct (poll_goroutine_cases _ _ _ _ _ Hgo)
    as [(_ & _ & ->) | [(_ & _ & ->) | [(st & _ & _ & ->) | (_ & _ & ->)]]];
    try (split; [reflexivity|intros w; reflexivity]).
  destruct r as [err|resp]; simpl;
    [|destruct ((StatusCode resp <? 200)%Z || (StatusCode resp >=? 300)%Z)];
    (split; [reflexivity|intros w; reflexivity]).
Qed.

Lemma inv_faults_init (cfg : Config) : inv_faults [] (started cfg).
Proof.
  unfold inv_faults, started. simpl.
  split; [reflexivity|]. split; [lia|].
  split; [intros e []|]. intros e H. discriminate.
Qed.

Lemma inv_faults_step (ls : list Label) (l : Label) (s s' : Sys) :
  inv_faults ls s -> step l s = Some s' -> inv_faults (ls ++ [l]) s'.
Proof.
  intros (Hbefore & Hone & Hfrom & Hret) Hstep.
  assert (Hkeep : serve s' = serve s -> faults (trace s') = faults (trace s) ->
                  inv_faults (ls ++ [l]) s').
  { intros Hs Hf. unfold inv_faults. rewrite Hs, Hf.
    split; [assumption|]. split; [assumption|]. split.
    - intros e He. destruct (Hfrom e He). split; [|assumption].
      apply in_or_app. left. assumption.
    - intros e He Hrep. apply in_or_app. left. apply Hret; assumption. }
  destruct l as [r| |e0| | |]; simpl in Hstep.
  - destruct (poll_step_inv r s s' Hstep)
      as (pc & es & Hgo & _ & _ & Hserve & _ & _ & _ & Htrace).
    apply Hkeep; [assumption|].
    rewrite Htrace, faults_app.
    destruct (poll_goroutine_quiet _ _ _ _ _ Hgo) as [-> _].
    apply app_nil_r.
  - destruct s as [[cfg osrv och] ln h pp sp cp tr].
    unfold serve_step in Hstep. simpl in *.
    destruct sp; try discriminate.
    + (* Serve is called *)
      destruct osrv as [srv|]; [|discriminate].
      destruct (quitFired srv); inversion Hstep; subst; clear Hstep;
        unfold inv_faults; simpl; rewrite faults_app, Hbefore by exact I;
        simpl; (split; [reflexivity|]); (split; [lia|]);
        (split; [intros e []|]); intros e He Hrep.
      * inversion He; subst. discriminate Hrep.
      * discriminate He.
    + destruct osrv as [srv|]; [|discriminate].
      destruct (quitFired srv); inversion Hstep; subst; clear Hstep.
      unfold inv_faults. simpl. rewrite Hbefore by exact I.
      split; [reflexivity|]. split; [simpl; lia|].
      split; [intros e []|]. discriminate.
    + destruct osrv as [srv|]; [|discriminate].
      destruct (doneFired srv); inversion Hstep; subst; clear Hstep.
      unfold inv_faults. simpl. rewrite Hbefore by exact I.
      split; [reflexivity|]. split; [simpl; lia|].
      split; [intros e []|]. discriminate.
    + (* the test of line 76 *)
      specialize (Hbefore I).
      destruct err as [e|].
      * destruct (reports_fault (Some e)) eqn:Hrep;
          inversion Hstep; subst; clear Hstep;
          unfold inv_faults; simpl; rewrite ?faults_app, Hbefore; simpl.
        -- split; [intros []|]. split; [lia|]. split; [|discriminate].
           intros e' [<-|[]]. split; [|assumption].
           apply in_or_app. left. apply Hret; [reflexivity|assumption].
        -- split; [intros []|]. split; [lia|]. split; [intros e' []|].
           discriminate.
      * inversion Hstep; subst; clear Hstep.
        unfold inv_faults; simpl; rewrite Hbefore; simpl.
        split; [intros []|]. split; [lia|]. split; [intros e' []|].
        discriminate.
    + (* the deferred close *)
      destruct och as [c|]; [|discriminate].
      inversion Hstep; subst; clear Hstep.
      unfold inv_faults. simpl. rewrite faults_app. simpl. rewrite app_nil_r.
      split; [intros []|]. split; [assumption|]. split; [|discriminate].
      intros e He. destruct (Hfrom e He). split; [|assumption].
      apply in_or_app. left. assumption.
  - destruct s as [[cfg osrv och] ln h pp sp cp tr].
    unfold accept_error_step in Hstep. simpl in *.
    destruct sp; try discriminate.
    destruct osrv as [srv|]; [|discriminate].
    destruct (quitFired srv); [discriminate|].
    inversion Hstep; subst; clear Hstep.
    unfold inv_faults. simpl. rewrite Hbefore by exact I.
    split; [reflexivity|]. split; [simpl; lia|]. split; [intros e []|].
    intros e He _. inversion He; subst.
    apply in_or_app. right. left. reflexivity.
  - apply Hkeep; unfold rpc_arrive_step in Hstep;
      destruct s as [[cfg osrv och] ln h pp sp cp tr]; simpl in *;
      repeat case_match; simplify_eq; reflexivity.
  - apply Hkeep; unfold rpc_done_step in Hstep;
      destruct s as [[cfg osrv och] ln h pp sp cp tr]; simpl in *;
      repeat case_match; simplify_eq; reflexivity.
  - apply Hkeep; unfold shutdown_step in Hstep;
      destruct s as [[cfg osrv och] ln h pp sp cp tr]; simpl in *;
      repeat case_match; simplify_eq; simpl;
      rewrite ?faults_app; simpl; rewrite ?app_nil_r; reflexivity.
Qed.

Lemma inv_faults_run (cfg : Config) (ls : list Label) :
  forall s, run ls (started cfg) = Some s -> inv_faults ls s.
Proof.
  induction ls as [|l ls IH] using rev_ind; intros s Hrun.
  - simpl in Hrun. inversion Hrun; subst. apply inv_faults_init.
  - destruct (run_snoc ls l _ s Hrun) as (s1 & Hrun1 & Hstep).
    eapply inv_faults_step; [apply IH; exact Hrun1 | exact Hstep].
Qed.

(** Once the serve goroutine has exited nothing more is reported. *)
Lemma faults_after_exit (s : Sys) (ls : list Label) (s' : Sys) :
  serve s = ServeExited -> run ls s = Some s' ->
  serve s' = ServeExited /\ faults (trace s') = faults (trace s).
Proof.
  intros Hs Hrun.
  apply (run_invariant
           (fun x => serve x = ServeExited /\
                     faults (trace x) = faults (trace s))) with ls s;
    [|split; [assumption|reflexivity]|assumption].
  clear. intros l a b [Ha Hf] Hstep.
  destruct l as [r| |e0| | |]; simpl in Hstep.
  - destruct (poll_step_inv r a b Hstep)
      as (pc & es & Hgo & _ & _ & Hserve & _ & _ & _ & Htrace).
    rewrite Hserve, Htrace, faults_app.
    destruct (poll_goroutine_quiet _ _ _ _ _ Hgo) as [-> _].
    rewrite app_nil_r. auto.
  - unfold serve_step in Hstep. rewrite Ha in Hstep. discriminate.
  - unfold accept_error_step in Hstep. rewrite Ha in Hstep. discriminate.
  - unfold rpc_arrive_step in Hstep. rewrite Ha in Hstep. discriminate.
  - unfold rpc_done_step in Hstep.
    destruct a as [[cfg osrv och] ln h pp sp cp tr]; simpl in *;
      repeat case_match; simplify_eq; simpl; auto.
  - unfold shutdown_step in Hstep.
    destruct a as [[cfg osrv och] ln h pp sp cp tr]; simpl in *;
      repeat case_match; simplify_eq; simpl;
      rewrite ?faults_app; simpl; rewrite ?app_nil_r; auto.
Qed.

(** X8: a started extension reports at most one fault in its life; the
    fault it reports is an error the listener failed with, and one that
    [errors.Is] does not match with the sentinel; the probes never cause
    a report.  Once [Shutdown] has returned, nothing is reported any
    more. *)
Theorem X8_at_most_one_fault (cfg : Config) (ls : list Label) (s : Sys) :
  run ls (started cfg) = Some s ->
  length (faults (trace s)) <= 1 /\
  (forall e, In e (faults (trace s)) ->
     In (LAcceptError e) ls /\
     errors_Is (Some e) ErrServerStopped = false) /\
  (forall r, caller s = ShutdownReturned r ->
     forall ls' s', run ls' s = Some s' ->
       faults (trace s') = faults (trace s)).
Proof.
  intros Hrun.
  destruct (inv_faults_run cfg ls s Hrun) as (_ & Hone & Hfrom & _).
  split; [exact Hone|]. split.
  - intros e He. destruct (Hfrom e He) as [Hin Hrep].
    split; [exact Hin|]. apply reports_fault_spec in Hrep. apply Hrep.
  - intros r Hr ls' s' Hrun'.
    destruct (inv_lifecycle_run cfg ls s Hrun)
      as (c & srv & _ & _ & Hclosed & _ & _ & Hret & _).
    destruct (Hret r Hr) as [_ Hcl].
    apply (faults_after_exit s ls' s' (Hclosed Hcl) Hrun').
Qed.

Lemma X8_at_most_one_fault_witness :
  faults (trace (state_after example_config example_listener_failure))
  = [errorString "accept tcp: use of closed network connection"] /\
  length (faults (trace (state_after example_config example_listener_failure)))
  <= 1.
Proof.
  assert (H : run example_listener_failure (started example_config)
              = Some (state_after example_config example_listener_failure))
    by (vm_compute; reflexivity).
  split; [reflexivity|].
  exact (proj1 (X8_at_most_one_fault example_config
                  example_listener_failure _ H)).
Defined.

Lemma watch_all_app (es es' : list Event) :
  watch_all (es ++ es') = foldl watch (watch_all es) es'.
Proof. unfold watch_all. apply foldl_app. Qed.

(** Once out of order, for ever out of order. *)
Lemma in_order_foldl (es : list Event) (w : Watch) :
  in_order (foldl watch w es) = true -> in_order w = true.
Proof.
  revert w. induction es as [|e es IH]; intros w H; [exact H|].
  simpl in H. apply IH in H.
  destruct e; simpl in H; try exact H;
    repeat (apply andb_true_iff in H; destruct H as [H _]); exact H.
Qed.

Lemma sawStop_foldl (es : list Event) (w : Watch) :
  sawStop (foldl watch w es) = true ->
  sawStop w = true \/ In EvGracefulStop es.
Proof.
  revert w. induction es as [|e es IH]; intros w H; [left; exact H|].
  simpl in H. destruct (IH _ H) as [Hw|Hin]; [|right; right; exact Hin].
  destruct e; simpl in Hw; auto. right. left. reflexivity.
Qed.

Lemma sawClose_foldl (es : list Event) (w : Watch) :
  sawClose (foldl watch w es) = true <->
  sawClose w = true \/ In EvCloseStopCh es.
Proof.
  revert w. induction es as [|e es IH]; intros w; simpl.
  - split; [auto|]. intros [H|[]]. exact H.
  - rewrite IH. split.
    + intros [Hw|Hin]; [|right; right; exact Hin].
      destruct e; simpl in Hw; auto.
    + intros [Hw|[->|Hin]]; [|left; reflexivity|right; exact Hin].
      left. destruct e; simpl; auto.
Qed.

Lemma inv_watch_init (cfg : Config) : inv_watch (started cfg).
Proof. unfold inv_watch, started. simpl. auto. Qed.

Lemma inv_watch_step (l : Label) (s s' : Sys) :
  inv_lifecycle s -> inv_watch s -> step l s = Some s' -> inv_watch s'.
Proof.
  intros (c & srv & Hc & Hsrv & Hclosed & _) (Hord & Hcl & Hst) Hstep.
  destruct l as [r| |e0| | |]; simpl in Hstep.
  - destruct (poll_step_inv r s s' Hstep)
      as (pc & es & Hgo & _ & _ & Hserve & Hcaller & _ & _ & Htrace).
    unfold inv_watch. rewrite Hserve, Hcaller, Htrace, watch_all_app.
    destruct (poll_goroutine_quiet _ _ _ _ _ Hgo) as [_ ->]. auto.
  - destruct s as [[cfg osrv och] ln h pp sp cp tr]. simpl in *. subst.
    unfold serve_step in Hstep. unfold inv_watch. simpl in *.
    destruct sp; try discriminate;
      repeat case_match; simplify_eq; simpl;
      rewrite ?watch_all_app; simpl; rewrite ?Hord, ?Hcl, ?Hst; auto.
  - destruct s as [[cfg osrv och] ln h pp sp cp tr]. simpl in *. subst.
    unfold accept_error_step in Hstep. unfold inv_watch. simpl in *.
    repeat case_match; simplify_eq; simpl. auto.
  - destruct s as [[cfg osrv och] ln h pp sp cp tr]. simpl in *. subst.
    unfold rpc_arrive_step in Hstep. unfold inv_watch. simpl in *.
    repeat case_match; simplify_eq; simpl. auto.
  - destruct s as [[cfg osrv och] ln h pp sp cp tr]. simpl in *. subst.
    unfold rpc_done_step in Hstep. unfold inv_watch. simpl in *.
    repeat case_match; simplify_eq; simpl. auto.
  - destruct s as [[cfg osrv och] ln h pp sp cp tr]. simpl in *. subst.
    unfold shutdown_step in Hstep. unfold inv_watch. simpl in *.
    destruct cp; try discriminate;
      repeat case_match; simplify_eq; simpl in *;
      rewrite ?watch_all_app; simpl; rewrite ?Hord, ?Hcl, ?Hst; auto.
    (* the receive: the channel is closed, so the goroutine has exited *)
    rewrite (Hclosed eq_refl). auto.
Qed.

Lemma inv_watch_run (cfg : Config) (ls : list Label) (s : Sys) :
  run ls (started cfg) = Some s -> inv_watch s.
Proof.
  intros Hrun.
  assert (H : inv_lifecycle s /\ inv_watch s); [|apply H].
  eapply (run_invariant (fun x => inv_lifecycle x /\ inv_watch x));
    [|split; [apply inv_lifecycle_init|apply inv_watch_init]|exact Hrun].
  intros l a b [Ha1 Ha2] Hab. split.
  - eapply inv_lifecycle_step; eassumption.
  - eapply inv_watch_step; eassumption.
Qed.

(** X9: in every trace of a started extension [close(gc.stopCh)] runs at
    most once (a second close would panic), a fault is reported only
    before that close, and the receive of [Shutdown] comes only after
    both the call of [GracefulStop] and the close: when [Shutdown]
    returns, whatever the serve goroutine had to report is reported. *)
Theorem X9_stop_protocol_order (cfg : Config) (ls : list Label) (s : Sys) :
  run ls (started cfg) = Some s ->
  in_order (watch_all (trace s)) = true /\
  (forall l1 l2, trace s = l1 ++ EvCloseStopCh :: l2 ->
     ~ In EvCloseStopCh l1) /\
  (forall l1 l2 e, trace s = l1 ++ EvReportFatal e :: l2 ->
     ~ In EvCloseStopCh l1) /\
  (forall l1 l2, trace s = l1 ++ EvRecvStopCh :: l2 ->
     In EvGracefulStop l1 /\ In EvCloseStopCh l1).
Proof.
  intros Hrun.
  destruct (inv_watch_run cfg ls s Hrun) as (Hord & _ & _).
  split; [exact Hord|].
  assert (Hat : forall l1 e l2, trace s = l1 ++ e :: l2 ->
                  in_order (watch (watch_all l1) e) = true).
  { intros l1 e l2 Htr. rewrite Htr, watch_all_app in Hord. simpl in Hord.
    apply in_order_foldl in Hord. exact Hord. }
  assert (Hno : forall l1, sawClose (watch_all l1) = false ->
                  ~ In EvCloseStopCh l1).
  { intros l1 Hf Hin.
    assert (Ht : sawClose (watch_all l1) = true)
      by (apply sawClose_foldl; right; exact Hin).
    congruence. }
  split; [|split].
  - intros l1 l2 Htr. apply Hno. specialize (Hat _ _ _ Htr). simpl in Hat.
    apply andb_true_iff in Hat. destruct Hat as [_ Hat].
    apply negb_true_iff in Hat. exact Hat.
  - intros l1 l2 e Htr. apply Hno. specialize (Hat _ _ _ Htr). simpl in Hat.
    apply andb_true_iff in Hat. destruct Hat as [_ Hat].
    apply negb_true_iff in Hat. exact Hat.
  - intros l1 l2 Htr. specialize (Hat _ _ _ Htr). simpl in Hat.
    apply andb_true_iff in Hat. destruct Hat as [Hat Hclose].
    apply andb_true_iff in Hat. destruct Hat as [_ Hstop].
    split.
    + destruct (sawStop_foldl _ _ Hstop) as [H|H]; [discriminate|exact H].
    + apply sawClose_foldl in Hclose.
      destruct Hclose as [H|H]; [discriminate|exact H].
Qed.

Lemma X9_stop_protocol_order_witness :
  trace (state_after example_config example_early_shutdown)
  = [EvLogInfo "Starting grpc_health_check extension"; EvGracefulStop;
     EvServe; EvCloseStopCh] ++ EvRecvStopCh :: [] /\
  In EvCloseStopCh
     [EvLogInfo "Starting grpc_health_check extension"; EvGracefulStop;
      EvServe; EvCloseStopCh].
Proof.
  assert (H : run example_early_shutdown (started example_config)
              = Some (state_after example_config example_early_shutdown))
    by (vm_compute; reflexivity).
  assert (Htr : trace (state_after example_config example_early_shutdown)
                = [EvLogInfo "Starting grpc_health_check extension";
                   EvGracefulStop; EvServe; EvCloseStopCh]
                  ++ EvRecvStopCh :: []) by reflexivity.
  split; [exact Htr|].
  exact (proj2 (proj2 (proj2 (proj2
           (X9_stop_protocol_order example_config example_early_shutdown
              _ H))) _ _ Htr)).
Defined.

(* ===================================================================== *)
(** ** Shutdown when the serve goroutine is gone, or not yet serving *)
(* ===================================================================== *)

(** X10: a call of [Shutdown] made when the serve goroutine has already
    exited and no RPC is in flight returns nil within three steps of its
    own, waiting for no other thread: it calls [GracefulStop] and receives
    at once from the closed [stopCh].  That is the case of every call
    after a [Shutdown] that has returned, so [Shutdown] can be called
    again; and the health table is left as it was. *)
Theorem X10_Shutdown_after_serve_exit (cfg : Config) (ls : list Label)
    (s : Sys) (fuel : nat) :
  run ls (started cfg) = Some s ->
  (serve s = ServeExited /\
   (forall srv, server (gc s) = Some srv -> inflight srv = 0)) \/
  (exists r, caller s = ShutdownReturned r) ->
  snd (Shutdown (3 + fuel) (call_Shutdown s)) = Some None /\
  trace (fst (Shutdown (3 + fuel) (call_Shutdown s)))
  = trace s ++ [EvGracefulStop; EvRecvStopCh] /\
  hs (fst (Shutdown (3 + fuel) (call_Shutdown s))) = hs s /\
  poll (fst (Shutdown (3 + fuel) (call_Shutdown s))) = poll s.
Proof.
  intros Hrun Hcase.
  destruct (inv_lifecycle_run cfg ls s Hrun)
    as (c & srv & Hc & Hsrv & Hclosed & _ & Hdrained & Hret & _
        & Hserving & Hexited & _).
  assert (H : closed c = true /\ inflight srv = 0 /\ serving srv = false).
  { destruct Hcase as [[Hs Hin] | [r Hr]].
    - split; [apply Hexited, Hs|]. split; [apply Hin, Hsrv|].
      destruct (serving srv) eqn:Hsv; [|reflexivity].
      specialize (Hserving eq_refl). congruence.
    - destruct (Hret r Hr) as [_ Hcl]. split; [exact Hcl|].
      apply Hdrained; rewrite Hr; discriminate. }
  destruct H as (Hcl & Hin & Hsv).
  destruct s as [[cfg0 osrv och] ln h pp sp cp tr]. simpl in *. subst.
  destruct c as [cl]. destruct srv as [q d sv n svc]. simpl in *. subst.
  unfold call_Shutdown.
  destruct fuel; cbn; rewrite <- app_assoc; repeat split.
Qed.

Lemma X10_Shutdown_after_serve_exit_witness :
  snd (Shutdown 3
         (call_Shutdown (state_after example_config example_early_shutdown)))
  = Some None.
Proof.
  assert (H : run example_early_shutdown (started example_config)
              = Some (state_after example_config example_early_shutdown))
    by (vm_compute; reflexivity).
  apply (X10_Shutdown_after_serve_exit example_config example_early_shutdown
           (state_after example_config example_early_shutdown) 0 H).
  right. exists None. reflexivity.
Defined.

(** X11: when [Shutdown] has called [GracefulStop] before the serve
    goroutine called [Serve], the goroutine finds the server stopped:
    [Serve] returns the sentinel at once, the goroutine reports nothing,
    closes [stopCh] and exits in three steps of its own, and the listener
    is released. *)
Theorem X11_Shutdown_before_Serve (cfg : Config) (ls : list Label) (s : Sys) :
  run ls (started cfg) = Some s ->
  serve s = ServeLaunched -> caller s <> ShutdownNotCalled ->
  exists s1 s',
    step LServe s = Some s1 /\
    serve s1 = ServeReturned (Some ErrServerStopped) /\
    run [LServe; LServe; LServe] s = Some s' /\
    serve s' = ServeExited /\
    stopCh (gc s') = Some {| closed := true |} /\
    listener s' = None /\
    trace s' = trace s ++ [EvServe; EvCloseStopCh] /\
    faults (trace s') = faults (trace s).
Proof.
  intros Hrun Hserve Hcaller.
  destruct (inv_lifecycle_run cfg ls s Hrun)
    as (c & srv & Hc & Hsrv & _ & Hquit & _).
  destruct (Hquit Hcaller) as [Hq _].
  destruct s as [[cfg0 osrv och] ln h pp sp cp tr]. simpl in *. subst.
  destruct srv as [q d sv n svc]. simpl in *. subst.
  eexists _, _. cbn.
  split; [reflexivity|]. split; [reflexivity|]. split; [reflexivity|]. cbn.
  split; [reflexivity|]. split; [reflexivity|]. split; [reflexivity|].
  rewrite <- app_assoc. split; [reflexivity|].
  rewrite faults_app. simpl. apply app_nil_r.
Qed.

Lemma X11_Shutdown_before_Serve_witness :
  exists s',
    run [LServe; LServe; LServe]
        (state_after example_config [LPoll (inl ErrServerStopped); LShutdown])
    = Some s' /\
    serve s' = ServeExited /\ faults (trace s') = [].
Proof.
  assert (H : run [LPoll (inl ErrServerStopped); LShutdown]
                (started example_config)
              = Some (state_after example_config
                        [LPoll (inl ErrServerStopped); LShutdown]))
    by (vm_compute; reflexivity).
  destruct (X11_Shutdown_before_Serve example_config _ _ H)
    as (s1 & s' & _ & _ & Hrun & Hs & _ & _ & _ & Hf).
  - reflexivity.
  - discriminate.
  - exists s'. split; [exact Hrun|]. split; [exact Hs|].
    rewrite Hf. reflexivity.
Defined.
